(** * Form validation and disclosure groups of [script.js]

    A shallow embedding of the field validation engine
    ([validationRules], [validateField], [getFieldLabel], [updateFieldUI]
    and the submit handler of [initializeFormValidation]) and of the click
    handlers of [initializeFAQ] and [initializeTabs], with the properties
    the specification states about them. *)

From Stdlib Require Import Ascii String.
From stdpp Require Import base option list gmap.

(** ** JavaScript strings

    A JavaScript string is a sequence of UTF-16 code units; [length] is the
    [.length] property and [=] is [===] on strings. *)

Module JS.

Abbreviation jsstring := (list N).

(** A literal of the script, given by its ASCII text. *)
Definition lit (s : string) : jsstring :=
  (λ a, N_of_ascii a) <$> list_ascii_of_string s.

Definition code (a : ascii) : N := N_of_ascii a.

(** WhiteSpace and LineTerminator code points of ECMAScript: the set that
    [String.prototype.trim] strips, that [parseInt] skips, and that [\s]
    matches. *)
Definition isWhiteSpace (c : N) : bool :=
  (((9 <=? c) && (c <=? 13))           (* TAB LF VT FF CR *)
   || (c =? 32) || (c =? 160)          (* SP NBSP *)
   || (c =? 5760)                      (* U+1680 *)
   || ((8192 <=? c) && (c <=? 8202))   (* U+2000 .. U+200A *)
   || (c =? 8232) || (c =? 8233)       (* LS PS *)
   || (c =? 8239) || (c =? 8287)       (* U+202F U+205F *)
   || (c =? 12288) || (c =? 65279))%N. (* U+3000 U+FEFF *)

Fixpoint dropWhile {A} (p : A → bool) (l : list A) : list A :=
  match l with
  | [] => []
  | x :: l' => if p x then dropWhile p l' else l
  end.

Definition trimStart (s : jsstring) : jsstring := dropWhile isWhiteSpace s.
Definition trimEnd (s : jsstring) : jsstring :=
  reverse (dropWhile isWhiteSpace (reverse s)).

(** [String.prototype.trim]. *)
Definition trim (s : jsstring) : jsstring := trimEnd (trimStart s).

Definition isEmpty (s : jsstring) : bool :=
  match s with [] => true | _ => false end.

Definition isDigit (c : N) : bool := ((48 <=? c) && (c <=? 57))%N.

(** The value of a decimal digit string, most significant digit first. *)
Definition digitsValue (ds : list N) : Z :=
  foldl (λ acc d, (acc * 10 + Z.of_N (d - 48))%Z) 0%Z ds.

Fixpoint takeWhile {A} (p : A → bool) (l : list A) : list A :=
  match l with
  | [] => []
  | x :: l' => if p x then x :: takeWhile p l' else []
  end.

(** [parseInt(s, 10)]: skip leading white space, read an optional sign,
    then the longest prefix of decimal digits; no digit gives NaN, here
    [None].  The script only compares the result with 13 and 120, so the
    mathematical integer stands for the Number (rounding to a double is
    monotone and keeps 13 and 120, and -0 compares as 0). *)
Definition parseInt10 (s : jsstring) : option Z :=
  let s1 := trimStart s in
  let '(sign, s2) :=
    match s1 with
    | c :: r => if (c =? 45)%N then ((-1)%Z, r)
                else if (c =? 43)%N then (1%Z, r) else (1%Z, s1)
    | [] => (1%Z, s1)
    end in
  match takeWhile isDigit s2 with
  | [] => None
  | ds => Some (sign * digitsValue ds)%Z
  end.

End JS.

(** ** Regular expressions

    The fragment of ECMAScript patterns the rule table uses (no flags, so
    matching is on code units, case sensitive, [^] and [$] match only at
    the two ends of the input). *)

Module RegExp.
Import JS.

(** A character class: a union of inclusive code-unit ranges, possibly
    complemented. *)
Record charClass := CharClass { negated : bool; ranges : list (N * N) }.

Definition inRanges (rs : list (N * N)) (c : N) : bool :=
  existsb (λ '(lo, hi), (lo <=? c) && (c <=? hi))%N rs.

Definition inClass (cl : charClass) (c : N) : bool :=
  xorb (negated cl) (inRanges (ranges cl) c).

Inductive regex :=
  | Empty                                   (* the empty pattern *)
  | Class (cl : charClass)                  (* [...] , \d, \s, ., a literal *)
  | Seq (r1 r2 : regex)
  | Alt (r1 r2 : regex)
  | Repeat (r : regex) (lo : nat) (hi : option nat)  (* r{lo,hi}; * + ? *)
  | LookAhead (r : regex)                   (* (?=r) *)
  | Bol                                     (* ^ *)
  | Eol                                     (* $ *)
  | WordBoundary.                           (* \b *)

(** A matcher takes the code unit before the current position (none at
    the start of the input), the rest of the input, and a continuation for
    what follows; it answers whether some way of matching succeeds, which
    is what backtracking decides for [RegExp.prototype.test]. *)
Definition matcher := option N → jsstring → (option N → jsstring → bool) → bool.

Fixpoint times (n : nat) (step : matcher) : matcher :=
  λ prev s k,
    match n with
    | O => k prev s
    | S n' => step prev s (λ prev' s', times n' step prev' s' k)
    end.

Fixpoint upTo (n : nat) (step : matcher) : matcher :=
  λ prev s k,
    k prev s ||
    match n with
    | O => false
    | S n' => step prev s (λ prev' s', upTo n' step prev' s' k)
    end.

(** Unbounded repetition.  An iteration that consumes nothing is not
    repeated (ECMAScript's empty check), so the length of the input bounds
    the number of iterations. *)
Fixpoint many (fuel : nat) (step : matcher) : matcher :=
  λ prev s k,
    k prev s ||
    match fuel with
    | O => false
    | S fuel' =>
        step prev s (λ prev' s',
          (length s' <? length s)%nat && many fuel' step prev' s' k)
    end.

Definition isWordChar (c : N) : bool :=
  (((48 <=? c) && (c <=? 57)) || ((65 <=? c) && (c <=? 90))
   || ((97 <=? c) && (c <=? 122)) || (c =? 95))%N.

Definition isWordAt (c : option N) : bool :=
  match c with Some c => isWordChar c | None => false end.

Fixpoint run (r : regex) : matcher :=
  λ prev s k,
    match r with
    | Empty => k prev s
    | Class cl =>
        match s with
        | c :: s' => inClass cl c && k (Some c) s'
        | [] => false
        end
    | Seq r1 r2 => run r1 prev s (λ prev' s', run r2 prev' s' k)
    | Alt r1 r2 => run r1 prev s k || run r2 prev s k
    | Repeat r' lo hi =>
        times lo (run r') prev s (λ prev' s',
          match hi with
          | Some h => upTo (h - lo) (run r') prev' s' k
          | None => many (length s') (run r') prev' s' k
          end)
    | LookAhead r' => run r' prev s (λ _ _, true) && k prev s
    | Bol => match prev with None => k prev s | Some _ => false end
    | Eol => match s with [] => k prev s | _ :: _ => false end
    | WordBoundary =>
        xorb (isWordAt prev) (isWordAt (head s)) && k prev s
    end.

(** A match attempt at every start position, leftmost first. *)
Fixpoint search (r : regex) (prev : option N) (s : jsstring) : bool :=
  run r prev s (λ _ _, true) ||
  match s with
  | [] => false
  | c :: s' => search r (Some c) s'
  end.

(** [pattern.test(s)] for a pattern without the g and y flags. *)
Definition test (r : regex) (s : jsstring) : bool := search r None s.

(** *** Pattern syntax *)

Definition rng (a b : ascii) : N * N := (code a, code b).
Definition one (a : ascii) : N * N := (code a, code a).
Definition set (rs : list (N * N)) : regex := Class (CharClass false rs).
Definition chr (a : ascii) : regex := set [one a].

(** [\d] and [\s] as class items. *)
Definition digit : list (N * N) := [(48, 57)%N].
Definition space : list (N * N) :=
  [(9, 13); (32, 32); (160, 160); (5760, 5760); (8192, 8202); (8232, 8233);
   (8239, 8239); (8287, 8287); (12288, 12288); (65279, 65279)]%N.

(** [.] matches anything but a line terminator. *)
Definition dot : regex :=
  Class (CharClass true [(10, 10); (13, 13); (8232, 8233)]%N).

Definition star (r : regex) : regex := Repeat r 0 None.
Definition plus (r : regex) : regex := Repeat r 1 None.
Definition opt (r : regex) : regex := Repeat r 0 (Some 1%nat).
Definition atLeast (n : nat) (r : regex) : regex := Repeat r n None.
Definition between (n m : nat) (r : regex) : regex := Repeat r n (Some m).

Fixpoint seqs (rs : list regex) : regex :=
  match rs with
  | [] => Empty
  | [r] => r
  | r :: rs' => Seq r (seqs rs')
  end.

Definition text (s : string) : regex :=
  seqs (chr <$> list_ascii_of_string s).

End RegExp.

(** ** Object literals

    [validationRules] and [labels] are object literals read with a computed
    key, [obj[key]]: an own property wins, a name that [Object.prototype]
    defines yields that inherited member, any other name yields
    [undefined]. *)

Module Obj.
Import JS.

Inductive property (A : Type) :=
  | Own (a : A)
  | Inherited
  | Undefined.
Arguments Own {A} a.
Arguments Inherited {A}.
Arguments Undefined {A}.

Definition objectPrototypeMembers : list jsstring :=
  lit <$> [ "constructor"; "__defineGetter__"; "__defineSetter__";
            "hasOwnProperty"; "__lookupGetter__"; "__lookupSetter__";
            "isPrototypeOf"; "propertyIsEnumerable"; "toString"; "valueOf";
            "__proto__"; "toLocaleString" ]%string.

Fixpoint assoc {A} (own : list (jsstring * A)) (key : jsstring) : option A :=
  match own with
  | [] => None
  | (k, a) :: own' => if decide (k = key) then Some a else assoc own' key
  end.

Definition get {A} (own : list (jsstring * A)) (key : jsstring) : property A :=
  match assoc own key with
  | Some a => Own a
  | None => if decide (key ∈ objectPrototypeMembers) then Inherited
            else Undefined
  end.

End Obj.

(** ** The page

    The form script reaches the page only through [getElementById], so the
    page is a finite map from element ids to elements.  An element carries
    what the script reads or writes: the [value] of an input, the [error]
    and [success] classes, [style.display] and [textContent]. *)

Module Dom.
Import JS.

Inductive displayStyle := DisplayUnset | DisplayNone | DisplayBlock.

Record element := Element {
  value : jsstring;
  classError : bool;
  classSuccess : bool;
  display : displayStyle;
  textContent : jsstring
}.

Abbreviation page := (gmap jsstring element).

Definition getElementById (p : page) (id : jsstring) : option element := p !! id.

End Dom.

(** ** The field validation engine *)

Module Validation.
Import JS RegExp Obj Dom.

Local Open Scope char_scope.

(** A field rule; an attribute the literal does not give is [None]
    ([undefined]), and [required] is only ever tested for truth. *)
Record rule := Rule {
  required : bool;
  minLength : option nat;
  maxLength : option nat;
  pattern : option regex;
  min : option Z;
  max : option Z;
  message : option jsstring
}.

Definition letters : list (N * N) := [rng "a" "z"; rng "A" "Z"].
Definition alnum : list (N * N) := letters ++ [rng "0" "9"].

(** [/^[a-zA-Z\s'-]+$/] *)
Definition fullNamePattern : regex :=
  seqs [Bol; plus (set (letters ++ space ++ [one "'"; one "-"])); Eol].

(** [/^[a-zA-Z0-9._%+-]+@[a-zA-Z0-9.-]+\.[a-zA-Z]{2,}$/] *)
Definition emailPattern : regex :=
  seqs [Bol;
        plus (set (alnum ++ [one "."; one "_"; one "%"; one "+"; one "-"]));
        chr "@";
        plus (set (alnum ++ [one "."; one "-"]));
        chr ".";
        atLeast 2 (set letters);
        Eol].

(** [/^[\+]?[(]?[\d\s\-\(\)]{10,}$/] *)
Definition phoneClass : list (N * N) :=
  digit ++ space ++ [one "-"; one "("; one ")"].
Definition phonePattern : regex :=
  seqs [Bol; opt (set [one "+"]); opt (set [one "("]);
        atLeast 10 (set phoneClass); Eol].

(** [/^(?=.*[a-z])(?=.*[A-Z])(?=.*\d)(?=.*[@$!%*?&])[A-Za-z\d@$!%*?&]/] *)
Definition specials : list (N * N) :=
  [one "@"; one "$"; one "!"; one "%"; one "*"; one "?"; one "&"].
Definition passwordPattern : regex :=
  seqs [Bol;
        LookAhead (Seq (star dot) (set [rng "a" "z"]));
        LookAhead (Seq (star dot) (set [rng "A" "Z"]));
        LookAhead (Seq (star dot) (set digit));
        LookAhead (Seq (star dot) (set specials));
        set ([rng "A" "Z"; rng "a" "z"] ++ digit ++ specials)].

(** The website pattern: [^], [https?:\/\/], the optional group [www\.],
    1 to 256 of [-a-zA-Z0-9@:%._\+~#=], [\.], 1 to 6 of [a-zA-Z0-9()],
    [\b], then a group of any number of [-a-zA-Z0-9()@:%_\+.~#?&//=],
    and [$]. *)
Definition websitePattern : regex :=
  seqs [Bol; text "http"; opt (chr "s"); text "://";
        opt (text "www.");
        between 1 256
          (set ([one "-"] ++ alnum ++
                [one "@"; one ":"; one "%"; one "."; one "_"; one "+";
                 one "~"; one "#"; one "="]));
        chr ".";
        between 1 6 (set (alnum ++ [one "("; one ")"]));
        WordBoundary;
        star (set ([one "-"] ++ alnum ++
                   [one "("; one ")"; one "@"; one ":"; one "%"; one "_";
                    one "+"; one "."; one "~"; one "#"; one "?"; one "&";
                    one "/"; one "/"; one "="]));
        Eol].

Definition noAttributes : rule :=
  Rule false None None None None None None.

Definition validationRules : list (jsstring * rule) :=
  [ (lit "fullName",
      Rule true (Some 2%nat) (Some 50%nat) (Some fullNamePattern) None None
        (Some (lit "Name must be 2-50 characters and contain only letters, spaces, hyphens, and apostrophes")));
    (lit "email",
      Rule true None None (Some emailPattern) None None
        (Some (lit "Please enter a valid email address (example: user@domain.com)")));
    (lit "phone",
      Rule false None None (Some phonePattern) None None
        (Some (lit "Please enter a valid phone number (at least 10 digits)")));
    (lit "password",
      Rule true (Some 8%nat) None (Some passwordPattern) None None
        (Some (lit "Password must be at least 8 characters with uppercase, lowercase, number, and special character (@$!%*?&)")));
    (lit "confirmPassword",
      Rule true None None None None None
        (Some (lit "Passwords do not match")));
    (lit "age",
      Rule false None None None (Some 13%Z) (Some 120%Z)
        (Some (lit "Age must be between 13 and 120 years")));
    (lit "website",
      Rule false None None (Some websitePattern) None None
        (Some (lit "Please enter a valid URL (include http:// or https://)")));
    (lit "message",
      Rule true (Some 10%nat) (Some 500%nat) None None None
        (Some (lit "Message must be between 10 and 500 characters"))) ].

(** [const rules = validationRules[fieldName]] followed by the reads of its
    attributes.  A member inherited from [Object.prototype] is truthy and
    has none of the rule attributes, so each of them reads as [undefined]. *)
Definition rulesOf (fieldName : jsstring) : option rule :=
  match get validationRules fieldName with
  | Own r => Some r
  | Inherited => Some noAttributes
  | Undefined => None
  end.

Definition labels : list (jsstring * jsstring) :=
  [ (lit "fullName", lit "Full Name");
    (lit "email", lit "Email Address");
    (lit "phone", lit "Phone Number");
    (lit "password", lit "Password");
    (lit "confirmPassword", lit "Confirm Password");
    (lit "age", lit "Age");
    (lit "website", lit "Website");
    (lit "message", lit "Message") ].

(** [labels[fieldName] || fieldName].  For a name in
    [objectPrototypeMembers] the script gets the inherited member, which is
    no string; the embedding covers the other names, and [validateField]
    asks for the label of required fields only, which all have an own
    label. *)
Definition getFieldLabel (fieldName : jsstring) : jsstring :=
  match assoc labels fieldName with
  | Some l => if isEmpty l then fieldName else l
  | None => fieldName
  end.

Record validationResult := Result {
  isValid : bool;
  resultMessage : option jsstring
}.

Definition valid : validationResult := Result true None.
Definition invalid (m : option jsstring) : validationResult := Result false m.

(** [!value || value.trim() === ''] *)
Definition blank (value : jsstring) : bool :=
  isEmpty value || isEmpty (trim value).

(** [rules.minLength && value.length < rules.minLength] *)
Definition tooShort (rules : rule) (value : jsstring) : bool :=
  match minLength rules with
  | Some n => negb (n =? 0)%nat && (length value <? n)%nat
  | None => false
  end.

(** [rules.maxLength && value.length > rules.maxLength] *)
Definition tooLong (rules : rule) (value : jsstring) : bool :=
  match maxLength rules with
  | Some n => negb (n =? 0)%nat && (n <? length value)%nat
  | None => false
  end.

(** [rules.pattern && !rules.pattern.test(value)] *)
Definition patternFails (rules : rule) (value : jsstring) : bool :=
  match pattern rules with
  | Some re => negb (test re value)
  | None => false
  end.

Definition isSome {A} (o : option A) : bool :=
  match o with Some _ => true | None => false end.

(** The numeric range block: entered when [min] or [max] is given. *)
Definition outOfRange (rules : rule) (value : jsstring) : bool :=
  if isSome (min rules) || isSome (max rules) then
    match parseInt10 value with
    | None => true
    | Some numValue =>
        match min rules with Some lo => (numValue <? lo)%Z | None => false end
        || match max rules with Some hi => (hi <? numValue)%Z | None => false end
    end
  else false.

(** [fields.password ? fields.password.value : ''] *)
Definition passwordValue (p : page) : jsstring :=
  match getElementById p (lit "password") with
  | Some field => value field
  | None => []
  end.

(** [validateField(fieldName, value)], reading the live page [p]. *)
Definition validateField (p : page) (fieldName value : jsstring)
  : validationResult :=
  match rulesOf fieldName with
  | None => valid
  | Some rules =>
      if required rules && blank value then
        invalid (Some (getFieldLabel fieldName ++ lit " is required"))
      else if blank value then valid
      else
        let value := trim value in
        if tooShort rules value then invalid (message rules)
        else if tooLong rules value then invalid (message rules)
        else if patternFails rules value then invalid (message rules)
        else if outOfRange rules value then invalid (message rules)
        else if bool_decide (fieldName = lit "confirmPassword")
                && negb (bool_decide (value = passwordValue p))
        then invalid (message rules)
        else valid
  end.

End Validation.

(** ** The field validation engine as a computation on the page

    [validateField] written once more with the page as an explicit state,
    statement by statement: what it reads of the page, and that it hands
    the page on as it found it.  The table of the rules is a constant and
    none of its patterns has the [g] or the [y] flag, so [test] keeps
    nothing between two calls. *)

Module Effects.
Import JS Obj Dom Validation.

(** A computation that may read and write the page. *)
Definition action (A : Type) : Type := page → A * page.

Definition ret {A} (a : A) : action A := λ p, (a, p).

Definition bind {A B} (m : action A) (k : A → action B) : action B :=
  λ p, let '(a, p') := m p in k a p'.

(** [fields.password ? fields.password.value : ''], the one place where
    [validateField] looks at the page. *)
Definition readPasswordValue : action jsstring :=
  λ p, (match p !! lit "password" with
        | Some field => value field
        | None => []
        end, p).

(** [validateField(fieldName, value)] *)
Definition validateFieldM (fieldName value : jsstring)
  : action validationResult :=
  match rulesOf fieldName with
  | None => ret valid
  | Some rules =>
      if required rules && blank value then
        ret (invalid (Some (getFieldLabel fieldName ++ lit " is required")))
      else if blank value then ret valid
      else
        let value := trim value in
        if tooShort rules value then ret (invalid (message rules))
        else if tooLong rules value then ret (invalid (message rules))
        else if patternFails rules value then ret (invalid (message rules))
        else if outOfRange rules value then ret (invalid (message rules))
        else if bool_decide (fieldName = lit "confirmPassword") then
          bind readPasswordValue (λ passwordValue,
            if negb (bool_decide (value = passwordValue))
            then ret (invalid (message rules))
            else ret valid)
        else ret valid
  end.

(** Two calls in a row, as the blur listener and the submit listener make
    them. *)
Definition validateTwice (fieldName value : jsstring)
  : action (validationResult * validationResult) :=
  bind (validateFieldM fieldName value) (λ first,
    bind (validateFieldM fieldName value) (λ second,
      ret (first, second))).

End Effects.

(** ** The form submission controller *)

Module Form.
Import JS Obj Dom Validation.

(** [Object.keys(fields)], in the order of the literal.  [fields[name]] is
    the element [getElementById(name)] found when the form was set up. *)
Definition fieldNames : list jsstring :=
  lit <$> [ "fullName"; "email"; "phone"; "password"; "confirmPassword";
            "age"; "website"; "message" ]%string.

Definition setError (b : bool) (e : element) : element :=
  Element (value e) b (classSuccess e) (display e) (textContent e).
Definition setSuccess (b : bool) (e : element) : element :=
  Element (value e) (classError e) b (display e) (textContent e).
Definition setDisplay (d : displayStyle) (e : element) : element :=
  Element (value e) (classError e) (classSuccess e) d (textContent e).
Definition setTextContent (t : jsstring) (e : element) : element :=
  Element (value e) (classError e) (classSuccess e) (display e) t.

(** [updateFieldUI(fieldName, validationResult)].  [alter] leaves the page
    as it is when the id has no element, as the [if (errorElement)] and
    [if (successElement)] guards do.  Assigning [undefined] to
    [textContent] stores the empty string. *)
Definition updateFieldUI (p : page) (fieldName : jsstring)
    (validationResult : validationResult) : page :=
  match getElementById p fieldName with
  | None => p
  | Some field =>
      let errorId := fieldName ++ lit "Error" in
      let successId := fieldName ++ lit "Success" in
      let filled := negb (isEmpty (trim (value field))) in
      if isValid validationResult then
        let p1 := alter (setError false) fieldName p in
        let p2 := if filled then alter (setSuccess true) fieldName p1 else p1 in
        let p3 := alter (setDisplay DisplayNone) errorId p2 in
        if filled then alter (setDisplay DisplayBlock) successId p3 else p3
      else
        let p1 := alter (setError true) fieldName
                    (alter (setSuccess false) fieldName p) in
        let p2 := alter (setDisplay DisplayNone) successId p1 in
        alter (setDisplay DisplayBlock)
          errorId
          (alter (setTextContent (default [] (resultMessage validationResult)))
             errorId p2)
  end.

(** The locals of the submit handler together with the page. *)
Record submitState := SubmitState {
  isFormValid : bool;
  formData : gmap jsstring jsstring;
  errors : list (jsstring * option jsstring);
  pageNow : page
}.

(** The body of the [forEach] over [Object.keys(fields)]. *)
Definition submitField (st : submitState) (fieldName : jsstring) : submitState :=
  match getElementById (pageNow st) fieldName with
  | None => st
  | Some field =>
      let value := value field in
      let validationResult := validateField (pageNow st) fieldName value in
      let p' := updateFieldUI (pageNow st) fieldName validationResult in
      if negb (isValid validationResult) then
        SubmitState false (formData st)
          (errors st ++ [(fieldName, resultMessage validationResult)]) p'
      else
        SubmitState (isFormValid st) (<[fieldName := value]> (formData st))
          (errors st) p'
  end.

Inductive submitOutcome :=
  | SuccessfulSubmission (formData : gmap jsstring jsstring)
  | FailedSubmission (errors : list (jsstring * option jsstring)).

Record submitEvent := SubmitEvent {
  defaultPrevented : bool;
  finalState : submitState;
  outcome : submitOutcome
}.

(** The submit listener up to the choice between
    [handleSuccessfulSubmission(formData, ...)] and
    [handleFailedSubmission(errors, ...)]. *)
Definition onSubmit (p : page) : submitEvent :=
  let prevented := true in                       (* event.preventDefault() *)
  let st := foldl submitField (SubmitState true ∅ [] p) fieldNames in
  SubmitEvent prevented st
    (if isFormValid st then SuccessfulSubmission (formData st)
     else FailedSubmission (errors st)).

End Form.

(** ** Disclosure groups: the FAQ accordion and the tab set *)

Module Disclosure.
Import JS.

(** The document as the list of its elements in document order, each with
    the classes and attributes the two handlers look at. *)
Record node := Node {
  isFaqAnswer : bool;          (* class faq-answer *)
  isFaqIcon : bool;            (* class faq-icon *)
  isTabBtn : bool;             (* class tab-btn *)
  isTabPanel : bool;           (* class tab-panel *)
  nodeId : option jsstring;    (* id *)
  dataAnswer : option jsstring;(* data-answer *)
  active : bool                (* class active *)
}.

Definition setActive (b : bool) (n : node) : node :=
  Node (isFaqAnswer n) (isFaqIcon n) (isTabBtn n) (isTabPanel n)
       (nodeId n) (dataAnswer n) b.

(** [undefined] read into a template literal or passed as an id. *)
Definition toStringOr (o : option jsstring) : jsstring :=
  default (lit "undefined") o.

(** A question: its [data-faq] attribute and its descendants, as positions
    in the document, in document order. *)
Record question := Question {
  dataFaq : option jsstring;
  descendants : list nat
}.

(** An identifier that can be pasted between the quotes of the selector
    [[data-answer="..."]] and is then compared for equality: it has no
    double quote and no backslash, which end or escape the string, no line
    feed, carriage return or form feed, which make the selector invalid,
    and no NUL and no surrogate, which the parser replaces. *)
Definition plainCodeUnit (c : N) : bool :=
  negb ((c =? 0) || (c =? 10) || (c =? 12) || (c =? 13) || (c =? 34)
        || (c =? 92) || ((55296 <=? c) && (c <=? 57343)))%N.

Definition plainIdentifier (faqId : jsstring) : bool :=
  forallb plainCodeUnit faqId.

(** [document.querySelector(`[data-answer="${faqId}"]`)] for a plain
    identifier: the first element whose [data-answer] attribute is the
    identifier. *)
Definition queryDataAnswer (d : list node) (faqId : jsstring) : option nat :=
  fst <$> list_find (λ n, dataAnswer n = Some faqId) d.

(** [this.querySelector('.faq-icon')] *)
Definition queryIcon (d : list node) (q : question) : option nat :=
  snd <$> list_find (λ i, from_option isFaqIcon false (d !! i) = true)
            (descendants q).

(** [forEach(item => { if (item !== keep) item.classList.remove('active') })]
    over the elements of one class. *)
Definition clearOthers (cls : node → bool) (keep : nat) (d : list node)
  : list node :=
  imap (λ j n, if cls n && negb (j =? keep)%nat then setActive false n else n) d.

Definition clearAll (cls : node → bool) (d : list node) : list node :=
  (λ n, if cls n then setActive false n else n) <$> d.

(** The click listener of a question in [initializeFAQ]. *)
Definition faqClick (d : list node) (q : question) : list node :=
  match queryDataAnswer d (toStringOr (dataFaq q)), queryIcon d q with
  | Some answer, Some icon =>
      let isActive := from_option active false (d !! answer) in
      let d1 := clearOthers isFaqAnswer answer d in
      let d2 := clearOthers isFaqIcon icon d1 in
      if negb isActive then
        alter (setActive true) icon (alter (setActive true) answer d2)
      else
        alter (setActive false) icon (alter (setActive false) answer d2)
  | _, _ => d
  end.

(** A tab button: its position in the document and its [data-tab]. *)
Record tabButton := TabButton {
  position : nat;
  dataTab : option jsstring
}.

Definition getElementById (d : list node) (id : jsstring) : option nat :=
  fst <$> list_find (λ n, nodeId n = Some id) d.

(** The first click listener of a button in [initializeTabs] (the fade-in
    styles and the second listener only touch [style]). *)
Definition tabClick (d : list node) (b : tabButton) : list node :=
  let d1 := clearAll isTabBtn d in
  let d2 := clearAll isTabPanel d1 in
  let d3 := alter (setActive true) (position b) d2 in
  match getElementById d3 (toStringOr (dataTab b)) with
  | Some targetPanel => alter (setActive true) targetPanel d3
  | None => d3
  end.

(** The element a tab button names is not another tab button. *)
Definition targetApart (d : list node) (b : tabButton) : Prop :=
  match getElementById d (toStringOr (dataTab b)) with
  | Some panel =>
      panel = position b ∨ from_option isTabBtn false (d !! panel) = false
  | None => True
  end.

Definition activeIn (cls : node → bool) (d : list node) (j : nat) : Prop :=
  ∃ n, d !! j = Some n ∧ cls n = true ∧ active n = true.

(** At most one element of the class is active. *)
Definition atMostOneActive (cls : node → bool) (d : list node) : Prop :=
  ∀ j k, activeIn cls d j → activeIn cls d k → j = k.

End Disclosure.

(** ** The specification's wording

    Definitions that follow the sentences of the specification, to be
    compared with the embedding of the script. *)

Module Spec.
Import JS RegExp Obj Dom Validation.

(** The checks that follow the emptiness check, in the stated order. *)
Inductive check := MinLength | MaxLength | Pattern | Range.

Definition checkOrder : list check := [MinLength; MaxLength; Pattern; Range].

(** A number lies outside the range when it is below a given minimum or
    above a given maximum. *)
Definition outside (lo hi : option Z) (n : Z) : Prop :=
  (∃ l, lo = Some l ∧ (n < l)%Z) ∨ (∃ h, hi = Some h ∧ (h < n)%Z).

Definition failsCheck (rules : rule) (trimmed : jsstring) (c : check) : Prop :=
  match c with
  | MinLength => ∃ n, minLength rules = Some n ∧ length trimmed < n
  | MaxLength => ∃ n, maxLength rules = Some n ∧ n < length trimmed
  | Pattern => ∃ re, pattern rules = Some re ∧ test re trimmed = false
  | Range =>
      (min rules ≠ None ∨ max rules ≠ None) ∧
      (parseInt10 trimmed = None ∨
       ∃ n, parseInt10 trimmed = Some n ∧ outside (min rules) (max rules) n)
  end.

(** The label of the fixed mapping, or the raw identifier. *)
Definition fieldLabel (fieldName : jsstring) : jsstring :=
  default fieldName (assoc labels fieldName).

(** The cross-field comparison of the confirm-password field. *)
Definition crossField (p : page) (rules : rule) (fieldName trimmed : jsstring)
  : validationResult :=
  if decide (fieldName = lit "confirmPassword" ∧ trimmed ≠ passwordValue p)
  then invalid (message rules) else valid.

(** The verdict the ordered checks give: emptiness first, then the first
    check of [checkOrder] that fails, then the cross-field comparison. *)
Inductive verdict (p : page) (rules : rule) (fieldName value : jsstring)
  : validationResult → Prop :=
  | VRequired :
      trim value = [] → required rules = true →
      verdict p rules fieldName value
        (invalid (Some (fieldLabel fieldName ++ lit " is required")))
  | VEmpty :
      trim value = [] → required rules = false →
      verdict p rules fieldName value valid
  | VFails before c after :
      trim value ≠ [] →
      checkOrder = before ++ c :: after →
      Forall (λ c', ¬ failsCheck rules (trim value) c') before →
      failsCheck rules (trim value) c →
      verdict p rules fieldName value (invalid (message rules))
  | VPasses :
      trim value ≠ [] →
      Forall (λ c', ¬ failsCheck rules (trim value) c') checkOrder →
      verdict p rules fieldName value
        (crossField p rules fieldName (trim value)).

Definition isPhoneSeparator (c : N) : bool :=
  (c =? 32)%N || bool_decide (c ∈ [code "-"; code "("; code ")"]).

(** The phone shape as the rule table words it: an optional leading plus,
    then digits, spaces, parentheses and hyphens, with at least 10
    digits. *)
Definition phoneShape (v : jsstring) : Prop :=
  ∃ body, (v = body ∨ v = code "+" :: body)
          ∧ Forall (λ c, isDigit c || isPhoneSeparator c = true) body
          ∧ 10 ≤ length (filter (λ c, isDigit c = true) v).

(** The characters the phone pattern repeats: digits, white space, hyphen
    and parentheses. *)
Definition isPhoneChar (c : N) : bool :=
  isDigit c || isWhiteSpace c
  || (c =? code "-")%N || (c =? code "(")%N || (c =? code ")")%N.

(** The age verdict as worded: the parse of the trimmed value is
    not-a-number, or below 13, or above 120. *)
Definition ageFails (v : jsstring) : Prop :=
  parseInt10 (trim v) = None
  ∨ ∃ n, parseInt10 (trim v) = Some n ∧ ((n < 13)%Z ∨ (120 < n)%Z).

(** The value a field of the page currently holds. *)
Definition fieldValue (p : page) (id : jsstring) : option jsstring :=
  value <$> getElementById p id.

(** Two pages whose elements hold the same values; classes, styles and
    texts, where earlier verdicts were shown, may differ. *)
Definition sameValues (p q : page) : Prop :=
  ∀ id, fieldValue p id = fieldValue q id.

(** The verdict of a field of the page on its current value. *)
Definition fieldResult (p : page) (fieldName : jsstring)
  : option validationResult :=
  (λ v, validateField p fieldName v) <$> fieldValue p fieldName.

Definition fieldPasses (p : page) (fieldName : jsstring) : bool :=
  from_option isValid true (fieldResult p fieldName).

(** The entry of a failing field in the Error Report. *)
Definition fieldReport (p : page) (fieldName : jsstring)
  : option (jsstring * option jsstring) :=
  match fieldResult p fieldName with
  | Some r => if isValid r then None else Some (fieldName, resultMessage r)
  | None => None
  end.

(** The entry of a passing field in the payload. *)
Definition fieldEntry (p : page) (fieldName : jsstring) : option jsstring :=
  match fieldResult p fieldName with
  | Some r => if isValid r then fieldValue p fieldName else None
  | None => None
  end.

End Spec.

(** ** Sample pages *)

Module Samples.
Import JS Dom.

Definition input (v : string) : element :=
  Element (lit v) false false DisplayUnset [].

Definition hidden : element := Element [] false false DisplayNone [].

Definition pageWithPassword (pw : string) : page :=
  {[ lit "password" := input pw ]}.

(** The same password in a page that differs elsewhere. *)
Definition otherPageWithPassword (pw : string) : page :=
  <[ lit "email" := input "someone@example.org" ]> (pageWithPassword pw).

(** A form filled in correctly, with its message elements, still showing
    an earlier error on the email field. *)
Definition filledForm : page :=
  list_to_map
    [ (lit "fullName", input "Anne-Marie O'Brien");
      (lit "email",
        Element (lit "user@domain.com") true false DisplayUnset []);
      (lit "emailError",
        Element [] false false DisplayBlock
          (lit "Please enter a valid email address (example: user@domain.com)"));
      (lit "phone", input "");
      (lit "password", input "Abcdef1!");
      (lit "confirmPassword", input "Abcdef1!");
      (lit "age", input "13");
      (lit "website", input "https://example.com");
      (lit "message", input "A message that is long enough.") ].

(** The same form with an age below the range. *)
Definition formWithBadAge : page :=
  <[ lit "age" := input "12" ]> filledForm.

End Samples.

Module DisclosureSamples.
Import JS Disclosure.

Definition answerNode (id : string) (isActive : bool) : node :=
  Node true false false false None (Some (lit id)) isActive.
Definition iconNode (isActive : bool) : node :=
  Node false true false false None None isActive.
Definition buttonNode (isActive : bool) : node :=
  Node false false true false None None isActive.
Definition panelNode (id : string) (isActive : bool) : node :=
  Node false false false true (Some (lit id)) None isActive.

(** Two FAQ items, the first one open; the second question holds the
    icon at position 3. *)
Definition faqDocument : list node :=
  [answerNode "1" true; iconNode true; answerNode "2" false; iconNode false].
Definition secondQuestion : question := Question (Some (lit "2")) [3].

(** Two tabs, the first one selected. *)
Definition tabDocument : list node :=
  [buttonNode true; buttonNode false;
   panelNode "tab1" true; panelNode "tab2" false].
Definition secondTab : tabButton := TabButton 1 (Some (lit "tab2")).

End DisclosureSamples.

(** ** The character classes of the patterns, read as predicates *)

Module Classes.
Import JS.

Definition isLower (c : N) : bool := ((97 <=? c) && (c <=? 122))%N.
Definition isUpper (c : N) : bool := ((65 <=? c) && (c <=? 90))%N.
Definition isLetter (c : N) : bool := isLower c || isUpper c.

(** [[a-zA-Z\s'-]] *)
Definition isNameChar (c : N) : bool :=
  isLetter c || isWhiteSpace c || (c =? code "'")%N || (c =? code "-")%N.

(** [[@$!%*?&]] *)
Definition isSpecial (c : N) : bool :=
  ((c =? code "@") || (c =? code "$") || (c =? code "!") || (c =? code "%")
   || (c =? code "*") || (c =? code "?") || (c =? code "&"))%N.

(** [[A-Za-z\d@$!%*?&]] *)
Definition isPasswordChar (c : N) : bool :=
  isUpper c || isLower c || isDigit c || isSpecial c.

(** [[a-zA-Z0-9._%+-]] *)
Definition isEmailLocalChar (c : N) : bool :=
  (isLetter c || isDigit c || (c =? code ".") || (c =? code "_")
   || (c =? code "%") || (c =? code "+") || (c =? code "-"))%N.

(** [[a-zA-Z0-9.-]] *)
Definition isEmailDomainChar (c : N) : bool :=
  (isLetter c || isDigit c || (c =? code ".") || (c =? code "-"))%N.

(** The code units [.] does not match. *)
Definition isLineTerminator (c : N) : bool :=
  ((c =? 10) || (c =? 13) || (c =? 8232) || (c =? 8233))%N.

(** The input up to its first line terminator: as far as [.*] reaches from
    the start. *)
Definition firstLine (s : jsstring) : jsstring :=
  takeWhile (λ c, negb (isLineTerminator c)) s.

End Classes.

Module Continuations.
Import JS RegExp.

(** What follows the last item of an anchored pattern: [$], then nothing. *)
Definition atEnd : option N → jsstring → bool :=
  λ prev s, run Eol prev s (λ _ _, true).

End Continuations.

(** ** The other listeners of the form *)

Module FormEvents.
Import JS Obj Dom Validation Form.

(** The blur listener of a field: validate the current value at once and
    show the verdict.  The listeners are attached to the fields that
    exist. *)
Definition onBlur (p : page) (fieldName : jsstring) : page :=
  match getElementById p fieldName with
  | None => p
  | Some field =>
      updateFieldUI p fieldName (validateField p fieldName (value field))
  end.

(** The focus listener of a field: an error mark is taken away together
    with the error text. *)
Definition onFocus (p : page) (fieldName : jsstring) : page :=
  match getElementById p fieldName with
  | None => p
  | Some field =>
      if classError field then
        alter (setDisplay DisplayNone) (fieldName ++ lit "Error")
          (alter (setError false) fieldName p)
      else p
  end.

(** [Object.keys(fields).find(...)] in [handleFailedSubmission]: the first
    field that carries the error class. *)
Definition firstErrorField (p : page) : option jsstring :=
  snd <$> list_find
            (λ fieldName,
               from_option classError false (getElementById p fieldName) = true)
            fieldNames.

(** What the two handlers do to the success indicator [formSuccess]. *)
Definition showFormSuccess (p : page) : page :=
  alter (setDisplay DisplayBlock) (lit "formSuccess") p.
Definition hideFormSuccess (p : page) : page :=
  alter (setDisplay DisplayNone) (lit "formSuccess") p.

(** The page after the submit listener, with the indicator set by
    [handleSuccessfulSubmission] or [handleFailedSubmission] (focus
    changes, banners and the console are left out). *)
Definition pageAfterSubmit (p : page) : page :=
  let st := finalState (onSubmit p) in
  if isFormValid st then showFormSuccess (pageNow st)
  else hideFormSuccess (pageNow st).

(** The body of the [forEach] of [resetForm]. *)
Definition clearField (p : page) (fieldName : jsstring) : page :=
  match getElementById p fieldName with
  | None => p
  | Some _ =>
      alter (setDisplay DisplayNone) (fieldName ++ lit "Success")
        (alter (setDisplay DisplayNone) (fieldName ++ lit "Error")
           (alter (λ e, setError false (setSuccess false e)) fieldName p))
  end.

(** [resetForm] after its [form.reset()], which is the browser's and
    restores the values: the validation states are cleared and the success
    indicator is hidden. *)
Definition clearValidationStates (p : page) : page :=
  hideFormSuccess (foldl clearField p fieldNames).

(** A property of the element with a given id, if the page has one. *)
Definition holdsAt (P : element → Prop) (p : page) (id : jsstring) : Prop :=
  ∀ e, p !! id = Some e → P e.

(** Neither error nor success class. *)
Definition unmarked (e : element) : Prop :=
  classError e = false ∧ classSuccess e = false.

(** [style.display] is [none]. *)
Definition concealed (e : element) : Prop := display e = DisplayNone.

(** A property that hiding an element and taking its marks away keep. *)
Definition settled (P : element → Prop) : Prop :=
  (∀ e, P e → P (setDisplay DisplayNone e))
  ∧ (∀ e, P e → P (setError false (setSuccess false e))).

End FormEvents.

(** ** The effect of a click, element by element *)

Module DisclosureShapes.
Import JS Disclosure.

(** An element without its [active] class: all a click leaves alone. *)
Definition bare (n : node) : node := setActive false n.


(** The element at position [j] after a click on a tab button. *)
Definition tabNode (button : nat) (target : option nat) (j : nat) (n : node)
  : node :=
  if decide (j = button ∨ target = Some j) then setActive true n
  else if isTabBtn n || isTabPanel n then setActive false n
  else n.

(** An element that a click on any tab button resets. *)
Definition inTabSet (d : list node) (j : nat) : Prop :=
  from_option (λ n, isTabBtn n || isTabPanel n) true (d !! j) = true.

End DisclosureShapes.

(** ** The theme toggle and its storage helpers *)

Module Theme.
Import JS.

(** What the helpers meet: whether [Storage] is defined, whether
    [localStorage.setItem] and [localStorage.getItem] throw, the stored
    item ["theme"] and the global [window.currentTheme]. *)
Record storage := Storage {
  storageDefined : bool;
  setItemThrows : bool;
  getItemThrows : bool;
  item : option jsstring;
  currentTheme : option jsstring
}.

(** [saveTheme(theme)]: the [catch] and the [else] both fall back to the
    global. *)
Definition saveTheme (theme : jsstring) (s : storage) : storage :=
  if storageDefined s && negb (setItemThrows s) then
    Storage (storageDefined s) (setItemThrows s) (getItemThrows s)
      (Some theme) (currentTheme s)
  else
    Storage (storageDefined s) (setItemThrows s) (getItemThrows s)
      (item s) (Some theme).

(** [getStoredTheme()]; [None] is [null] or [undefined]. *)
Definition getStoredTheme (s : storage) : option jsstring :=
  if storageDefined s && negb (getItemThrows s) then item s
  else currentTheme s.

(** [getStoredTheme() || 'light']: [null], [undefined] and the empty
    string are falsy. *)
Definition savedThemeOr (s : storage) : jsstring :=
  match getStoredTheme s with
  | Some (c :: t) => c :: t
  | _ => lit "light"
  end.

(** The two labels, as UTF-16 code units: a crescent moon (a surrogate
    pair) before [" Dark Mode"], a sun with a variation selector before
    [" Light Mode"]. *)
Definition darkLabel : jsstring := [55356; 57113]%N ++ lit " Dark Mode".
Definition lightLabel : jsstring := [9728; 65039]%N ++ lit " Light Mode".

(** The text [updateThemeToggleText(theme)] gives the button. *)
Definition toggleTextFor (theme : jsstring) : jsstring :=
  if decide (theme = lit "light") then darkLabel else lightLabel.

(** The body's class list (the script only adds, removes and tests
    membership), the text of the toggle button, and the storage. *)
Record themeState := ThemeState {
  bodyClasses : gset jsstring;
  toggleText : jsstring;
  store : storage
}.

Definition themeClasses : gset jsstring :=
  {[ lit "light-theme"; lit "dark-theme" ]}.

(** [DOMTokenList.add] refuses a token with ASCII white space. *)
Definition isAsciiWhiteSpace (c : N) : bool :=
  ((c =? 9) || (c =? 10) || (c =? 12) || (c =? 13) || (c =? 32))%N.
Definition validToken (t : jsstring) : bool :=
  negb (isEmpty t) && forallb (λ c, negb (isAsciiWhiteSpace c)) t.

(** [initializeThemeToggle()]: [None] when it throws, which it does when
    the class to add is no valid token or when the page has no
    [themeToggle] button. *)
Definition initializeThemeToggle (hasToggle : bool) (classes : gset jsstring)
    (s : storage) : option themeState :=
  let savedTheme := savedThemeOr s in
  if negb (validToken (savedTheme ++ lit "-theme")) then None
  else if negb hasToggle then None
  else Some (ThemeState ({[ savedTheme ++ lit "-theme" ]}
                           ∪ (classes ∖ themeClasses))
               (toggleTextFor savedTheme) s).

(** The click listener of the toggle button. *)
Definition themeClick (st : themeState) : themeState :=
  let isLight := bool_decide (lit "light-theme" ∈ bodyClasses st) in
  let newTheme := if isLight then lit "dark" else lit "light" in
  ThemeState ({[ newTheme ++ lit "-theme" ]} ∪ (bodyClasses st ∖ themeClasses))
    (toggleTextFor newTheme)
    (saveTheme newTheme (store st)).

End Theme.

(** ** Start-up *)

Module Startup.
Import JS Theme.

(** The page at [DOMContentLoaded]: the ids that have an element, the
    classes of the body and the storage. *)
Record loading := Loading {
  ids : gset jsstring;
  classes : gset jsstring;
  storageNow : storage
}.

Definition has (l : loading) (id : string) : bool :=
  bool_decide (lit id ∈ ids l).

(** The elements [initializeCounter] calls a method on without a test. *)
Definition counterIds : list string :=
  [ "incrementBtn"; "increment5Btn"; "decrementBtn"; "resetBtn"; "randomBtn";
    "counterDisplay" ]%string.

Inductive feature := ThemeToggle | Counter | Faq | Tabs | Dropdown | FormValidation.

(** Whether an initializer returns, and does not throw. *)
Definition returns (l : loading) (f : feature) : bool :=
  match f with
  | ThemeToggle =>
      bool_decide (is_Some (initializeThemeToggle (has l "themeToggle")
                              (classes l) (storageNow l)))
  | Counter => forallb (has l) counterIds
  | Faq | Tabs | Dropdown | FormValidation => true
  end.

(** Whether an initializer that returns has attached its listeners: the
    dropdown and the form return early when their element is missing. *)
Definition attaches (l : loading) (f : feature) : bool :=
  match f with
  | Dropdown => has l "dropdownToggle" && has l "dropdownMenu"
  | FormValidation => has l "contactForm"
  | _ => true
  end.

(** The calls of the [DOMContentLoaded] listener, in order; an exception
    ends the listener. *)
Fixpoint started (l : loading) (fs : list feature) : list feature :=
  match fs with
  | [] => []
  | f :: fs' => if returns l f then f :: started l fs' else []
  end.

Definition onDOMContentLoaded (l : loading) : list feature :=
  filter (λ f, attaches l f = true)
    (started l [ThemeToggle; Counter; Faq; Tabs; Dropdown; FormValidation]).

End Startup.

(** ** The counter *)

Module Counter.
Import JS.

Fixpoint decimalDigits (fuel : nat) (n : N) (acc : jsstring) : jsstring :=
  match fuel with
  | O => acc
  | S fuel' =>
      let acc' := (48 + n mod 10)%N :: acc in
      if (n / 10 =? 0)%N then acc' else decimalDigits fuel' (n / 10)%N acc'
  end.

(** The text of an integer Number below 10^21 in size. *)
Definition decimal (z : Z) : jsstring :=
  let n := Z.abs_N z in
  (if (z <? 0)%Z then lit "-" else []) ++ decimalDigits (S (N.size_nat n)) n [].

(** [count] and what [updateDisplay] last wrote to the display.  [count]
    is a Number that holds an integer; its arithmetic is that of the
    integers while the size stays below 2^53. *)
Record counter := CounterState {
  count : Z;
  textContent : jsstring;
  color : jsstring
}.

Definition colorFor (n : Z) : jsstring :=
  if (0 <? n)%Z then lit "#38a169"
  else if (n <? 0)%Z then lit "#e53e3e"
  else lit "#667eea".

(** [updateDisplay()] after [count] has been set. *)
Definition updateDisplay (n : Z) : counter :=
  CounterState n (decimal n) (colorFor n).

(** The clicks on the five buttons and a key pressed on an element.
    [draw] is [Math.floor(Math.random() * 201)]; [tag] is
    [event.target.tagName.toLowerCase()]. *)
Inductive counterEvent :=
  | ClickIncrement
  | ClickIncrement5
  | ClickDecrement
  | ClickReset
  | ClickRandom (draw : Z)
  | KeyDown (tag key : jsstring).

Definition counterStep (c : counter) (e : counterEvent) : counter :=
  match e with
  | ClickIncrement => updateDisplay (count c + 1)
  | ClickIncrement5 => updateDisplay (count c + 5)
  | ClickDecrement => updateDisplay (count c - 1)
  | ClickReset => updateDisplay 0
  | ClickRandom draw => updateDisplay (draw - 100)
  | KeyDown tag key =>
      if bool_decide (tag = lit "input") || bool_decide (tag = lit "textarea")
      then c
      else if bool_decide (key = lit "ArrowUp") then updateDisplay (count c + 1)
      else if bool_decide (key = lit "ArrowDown") then updateDisplay (count c - 1)
      else if bool_decide (key = lit " ") then updateDisplay 0
      else c
  end.

(** [initializeCounter()] ends with [updateDisplay()] on [count = 0]. *)
Definition initialCounter : counter := updateDisplay 0.

Definition runCounter (es : list counterEvent) : counter :=
  foldl counterStep initialCounter es.

(** A draw that [Math.floor(Math.random() * 201)] can give. *)
Definition possibleEvent (e : counterEvent) : Prop :=
  match e with
  | ClickRandom draw => (0 ≤ draw ≤ 200)%Z
  | _ => True
  end.

(** The display shows the count, which is at most 100 plus five times
    [n] in size. *)
Definition shown (c : counter) (n : nat) : Prop :=
  textContent c = decimal (count c)
  ∧ color c = colorFor (count c)
  ∧ (Z.abs (count c) ≤ 100 + 5 * Z.of_nat n)%Z.

End Counter.

(** ** Debouncing *)

Module Debounce.

(** The timer a debounced function holds: when it is due and the
    arguments of the call that set it.  Time is counted in
    milliseconds. *)
Definition pending (A : Type) : Type := option (nat * A).

(** A call of the debounced function at time [now]: [clearTimeout] drops
    the timer that is waiting, [setTimeout(later, wait)] sets a new one. *)
Definition call {A} (wait now : nat) (args : A) (p : pending A) : pending A :=
  Some (now + wait, args).

(** Time passes up to [now]: a timer that is due runs [func] with its
    arguments (a timer due at the very time of a call is taken to run
    before the call). *)
Definition elapse {A} (now : nat) (p : pending A) : list A * pending A :=
  match p with
  | Some (due, args) => if (due <=? now)%nat then ([args], None) else ([], p)
  | None => ([], None)
  end.

(** The calls of [func] that a list of calls of the debounced function,
    given with their times in order, leads to up to the time [until]. *)
Fixpoint invocations {A} (wait : nat) (p : pending A) (calls : list (nat * A))
    (until : nat) : list A :=
  match calls with
  | [] => (elapse until p).1
  | (now, args) :: calls' =>
      let '(fired, p') := elapse now p in
      fired ++ invocations wait (call wait now args p') calls' until
  end.

(** Each call comes less than [wait] after the one before. *)
Fixpoint burst (wait : nat) (last : nat) (calls : list nat) : Prop :=
  match calls with
  | [] => True
  | now :: calls' => last ≤ now ∧ now < last + wait ∧ burst wait now calls'
  end.

End Debounce.

(** ** The dropdown menu *)

Module Dropdown.
Import Dom.

(** The inline [display] of the menu, whether the arrow of the toggle (when
    it has one) is turned to [rotate(180deg)], and the times at which the
    timers of [closeDropdown] that are still waiting will set [display] to
    ['none'].  Time is counted in milliseconds; opacity and [transform] of
    the menu are left out. *)
Record menu := Menu {
  menuDisplay : displayStyle;
  arrowTurned : bool;
  hideTimers : list nat
}.

(** [dropdownMenu.style.display === 'block'] *)
Definition isBlock (d : displayStyle) : bool :=
  match d with DisplayBlock => true | _ => false end.

(** Time passes up to [now]: the timers that are due run. *)
Definition elapse (now : nat) (m : menu) : menu :=
  Menu (if existsb (λ due, due <=? now)%nat (hideTimers m) then DisplayNone
        else menuDisplay m)
    (arrowTurned m)
    (filter (λ due, now < due) (hideTimers m)).

Definition openDropdown (m : menu) : menu :=
  Menu DisplayBlock true (hideTimers m).

(** [closeDropdown()] at time [now]; nothing cancels a timer. *)
Definition closeDropdown (now : nat) (m : menu) : menu :=
  Menu (menuDisplay m) false (hideTimers m ++ [now + 200]).

(** A click on the toggle, on an item of the menu, or on an element
    outside the toggle and the menu.  The toggle stops the propagation, and
    the listener of the document leaves a click inside the menu alone. *)
Inductive click := OnToggle | OnItem | Outside.

Definition clickAt (m : menu) (e : nat * click) : menu :=
  let m' := elapse e.1 m in
  match e.2 with
  | OnToggle =>
      if isBlock (menuDisplay m') then closeDropdown e.1 m'
      else openDropdown m'
  | OnItem | Outside => closeDropdown e.1 m'
  end.

(** The menu at the time [until], after the clicks given with their
    times. *)
Definition menuAt (m : menu) (clicks : list (nat * click)) (until : nat)
  : menu :=
  elapse until (foldl clickAt m clicks).

(** The times of the clicks do not go back. *)
Fixpoint inOrder (from : nat) (clicks : list (nat * click)) : Prop :=
  match clicks with
  | [] => True
  | e :: clicks' => from ≤ e.1 ∧ inOrder e.1 clicks'
  end.

(** The time of the last click. *)
Definition lastTime (from : nat) (clicks : list (nat * click)) : nat :=
  from_option fst from (last clicks).

(** Every timer is due within 200 ms of [t]; the arrow is turned back only
    while a timer is waiting. *)
Definition closing (m : menu) (t : nat) : Prop :=
  Forall (λ due, due ≤ t + 200) (hideTimers m)
  ∧ (arrowTurned m = false → hideTimers m ≠ []).

End Dropdown.

(** ** Properties of strings *)

Module JSFacts.
Import JS.

Definition noLeading {A} (p : A → bool) (l : list A) : Prop :=
  match l with [] => True | x :: _ => p x = false end.

Lemma dropWhile_noLeading {A} (p : A → bool) l : noLeading p (dropWhile p l).
Proof.
  induction l as [|x l IH]; simpl; [done|].
  destruct (p x) eqn:E; [done|]. simpl. done.
Qed.

Lemma dropWhile_fixed {A} (p : A → bool) l : noLeading p l → dropWhile p l = l.
Proof. destruct l as [|x l]; simpl; [done|]. by intros ->. Qed.

Lemma dropWhile_suffix {A} (p : A → bool) l : ∃ k, l = k ++ dropWhile p l.
Proof.
  induction l as [|x l [k IH]]; simpl; [by exists []|].
  destruct (p x); [|by exists []].
  exists (x :: k). simpl. by f_equal.
Qed.

Lemma noLeading_prefix {A} (p : A → bool) a b :
  noLeading p (a ++ b) → noLeading p a.
Proof. destruct a; simpl; done. Qed.

Lemma trimEnd_prefix s : ∃ k, s = trimEnd s ++ k.
Proof.
  unfold trimEnd.
  destruct (dropWhile_suffix isWhiteSpace (reverse s)) as [k Hk].
  exists (reverse k).
  rewrite <- reverse_app, <- Hk. by rewrite reverse_involutive.
Qed.

Lemma trimEnd_idem s : trimEnd (trimEnd s) = trimEnd s.
Proof.
  unfold trimEnd. rewrite reverse_involutive.
  by rewrite (dropWhile_fixed _ _ (dropWhile_noLeading _ _)).
Qed.

Lemma trim_idem s : trim (trim s) = trim s.
Proof.
  unfold trim.
  assert (trimStart (trimEnd (trimStart s)) = trimEnd (trimStart s)) as ->.
  { apply dropWhile_fixed.
    destruct (trimEnd_prefix (trimStart s)) as [k Hk].
    apply (noLeading_prefix _ _ k). rewrite <- Hk.
    apply dropWhile_noLeading. }
  apply trimEnd_idem.
Qed.

Lemma isEmpty_nil (s : jsstring) : isEmpty s = true ↔ s = [].
Proof. destruct s; simpl; split; congruence. Qed.

Lemma isEmpty_false (s : jsstring) : isEmpty s = false ↔ s ≠ [].
Proof. destruct s; simpl; split; congruence. Qed.

End JSFacts.

(** ** Properties of the validation engine *)

Module ValidationFacts.
Import JS RegExp Obj Dom Validation Spec JSFacts.

Lemma blank_trim_nil v : blank v = true ↔ trim v = [].
Proof.
  unfold blank. rewrite orb_true_iff, !isEmpty_nil.
  split; [|by right]. intros [->|H]; done.
Qed.

Lemma blank_false v : blank v = false ↔ trim v ≠ [].
Proof.
  rewrite <- blank_trim_nil. destruct (blank v); split; congruence.
Qed.

Lemma blank_trim v : blank (trim v) = blank v.
Proof.
  apply eq_true_iff_eq. rewrite !blank_trim_nil. by rewrite trim_idem.
Qed.

Lemma rulesOf_own fieldName r :
  get validationRules fieldName = Own r → rulesOf fieldName = Some r.
Proof. unfold rulesOf. by intros ->. Qed.

Lemma assoc_elem_of {A} (own : list (jsstring * A)) key a :
  assoc own key = Some a → (key, a) ∈ own.
Proof.
  induction own as [|[k a'] own IH]; simpl; [done|].
  case_decide as Hk.
  - intros [= <-]. rewrite Hk. apply elem_of_cons. by left.
  - intros H. apply elem_of_cons. right. auto.
Qed.

(** Every own rule is one of the eight entries of the table. *)
Lemma own_rule_cases fieldName r :
  get validationRules fieldName = Own r →
  (fieldName, r) ∈ validationRules.
Proof.
  unfold get. destruct (assoc validationRules fieldName) as [r'|] eqn:E;
    [|case_decide; done].
  intros [= <-]. by apply assoc_elem_of.
Qed.

Lemma own_rule_label fieldName r :
  get validationRules fieldName = Own r →
  ∃ l, assoc labels fieldName = Some l ∧ l ≠ [].
Proof.
  intros H%own_rule_cases. unfold validationRules in H.
  repeat (apply elem_of_cons in H as [[= -> _]|H];
          [eexists; split; [vm_compute; reflexivity|done]|]).
  by apply elem_of_nil in H.
Qed.

Lemma getFieldLabel_own fieldName r :
  get validationRules fieldName = Own r →
  getFieldLabel fieldName = fieldLabel fieldName.
Proof.
  intros (l & Hl & Hne)%own_rule_label.
  unfold getFieldLabel, fieldLabel. rewrite Hl. simpl.
  by destruct l.
Qed.

Lemma tooShort_spec rules v :
  tooShort rules v = true ↔ failsCheck rules v MinLength.
Proof.
  unfold tooShort. simpl. destruct (minLength rules) as [n|].
  - rewrite andb_true_iff, negb_true_iff, Nat.eqb_neq, Nat.ltb_lt. split.
    + intros [_ H]. eauto.
    + intros (n' & [= <-] & H). lia.
  - split; [done|]. by intros (? & ? & _).
Qed.

(** A maximum length of 0 is falsy, so the script skips the check; no
    rule of the table has one. *)
Lemma tooLong_spec rules v :
  maxLength rules ≠ Some 0 →
  tooLong rules v = true ↔ failsCheck rules v MaxLength.
Proof.
  unfold tooLong. simpl. destruct (maxLength rules) as [n|]; intros Hn.
  - rewrite andb_true_iff, negb_true_iff, Nat.eqb_neq, Nat.ltb_lt. split.
    + intros [_ H]. eauto.
    + intros (n' & [= <-] & H). split; [congruence|done].
  - split; [done|]. by intros (? & ? & _).
Qed.

Lemma own_rule_maxLength fieldName r :
  get validationRules fieldName = Own r → maxLength r ≠ Some 0.
Proof.
  intros H%own_rule_cases. unfold validationRules in H.
  repeat (apply elem_of_cons in H as [[= _ ->]|H]; [done|]).
  by apply elem_of_nil in H.
Qed.

Lemma patternFails_spec rules v :
  patternFails rules v = true ↔ failsCheck rules v Pattern.
Proof.
  unfold patternFails. simpl. destruct (pattern rules) as [re|].
  - rewrite negb_true_iff. split; [eauto|]. by intros (? & [= <-] & ?).
  - split; [done|]. by intros (? & ? & _).
Qed.

Lemma below_spec (lo : option Z) n :
  match lo with Some l => (n <? l)%Z | None => false end = true
  ↔ ∃ l, lo = Some l ∧ (n < l)%Z.
Proof.
  destruct lo as [l|].
  - rewrite Z.ltb_lt. split; [eauto|]. by intros (? & [= <-] & ?).
  - split; [done|]. by intros (? & ? & _).
Qed.

Lemma above_spec (hi : option Z) n :
  match hi with Some h => (h <? n)%Z | None => false end = true
  ↔ ∃ h, hi = Some h ∧ (h < n)%Z.
Proof.
  destruct hi as [h|].
  - rewrite Z.ltb_lt. split; [eauto|]. by intros (? & [= <-] & ?).
  - split; [done|]. by intros (? & ? & _).
Qed.

Lemma hasBound_spec (lo hi : option Z) :
  isSome lo || isSome hi = true ↔ lo ≠ None ∨ hi ≠ None.
Proof.
  destruct lo, hi; simpl; split; intros H; try done; try (by left);
    try (by right).
  by destruct H.
Qed.

Lemma outOfRange_spec rules v :
  outOfRange rules v = true ↔ failsCheck rules v Range.
Proof.
  unfold outOfRange, outside. simpl.
  rewrite <- hasBound_spec.
  destruct (isSome (min rules) || isSome (max rules)).
  - destruct (parseInt10 v) as [n|].
    + rewrite orb_true_iff, below_spec, above_spec. split.
      * intros H. split; [done|]. right. by exists n.
      * intros [_ [?|(n' & [= <-] & H)]]; done.
    + split; [|done]. intros _. split; [done|]. by left.
  - split; [done|]. by intros [? _].
Qed.

End ValidationFacts.

(** ** Properties of the matcher *)

Module RegExpFacts.
Import JS RegExp.

Lemma range_single (a c : N) : ((a <=? c) && (c <=? a))%N = (c =? a)%N.
Proof.
  destruct (N.eqb_spec c a) as [->|Hne].
  - by rewrite N.leb_refl.
  - apply andb_false_iff.
    destruct (N.leb_spec a c); [right|left; done].
    apply N.leb_gt. lia.
Qed.

(** [\s] matches exactly the code units that [trim] strips. *)
Lemma space_isWhiteSpace c : inRanges space c = isWhiteSpace c.
Proof.
  unfold inRanges, space, isWhiteSpace. simpl.
  rewrite !range_single, orb_false_r.
  assert (((8232 <=? c) && (c <=? 8233))%N
          = ((c =? 8232) || (c =? 8233))%N) as ->.
  { destruct (N.eqb_spec c 8232) as [->|]; [done|].
    destruct (N.eqb_spec c 8233) as [->|]; [done|]. simpl.
    apply andb_false_iff.
    destruct (N.leb_spec 8232 c); [right|left; done].
    apply N.leb_gt. lia. }
  by rewrite !orb_assoc.
Qed.

Lemma inRanges_app rs1 rs2 c :
  inRanges (rs1 ++ rs2) c = inRanges rs1 c || inRanges rs2 c.
Proof. unfold inRanges. apply existsb_app. Qed.

(** A pattern that starts with [^] only matches at the start. *)
Lemma search_bol_inside r c s : search (Seq Bol r) (Some c) s = false.
Proof.
  revert c. induction s as [|x s IH]; intros c; simpl; [done|]. apply IH.
Qed.

Lemma test_bol r s :
  test (Seq Bol r) s = run r None s (λ _ _, true).
Proof.
  unfold test. destruct s as [|c s]; simpl.
  - by rewrite orb_false_r.
  - by rewrite search_bol_inside, orb_false_r.
Qed.

Lemma run_opt_class cl prev s k :
  run (opt (Class cl)) prev s k = true →
  k prev s = true
  ∨ ∃ c s', s = c :: s' ∧ inClass cl c = true ∧ k (Some c) s' = true.
Proof.
  simpl. rewrite orb_true_iff. intros [H|H]; [by left|right].
  destruct s as [|c s']; [done|].
  rewrite orb_false_r in H. apply andb_true_iff in H as [Hc Hk]. eauto.
Qed.

Lemma times_class cl n prev s k :
  times n (run (Class cl)) prev s k = true →
  ∃ s1 s2 prev', s = s1 ++ s2 ∧ length s1 = n
                 ∧ Forall (λ c, inClass cl c = true) s1
                 ∧ k prev' s2 = true.
Proof.
  revert prev s. induction n as [|n IH]; intros prev s; simpl.
  - intros H. by exists [], s, prev.
  - destruct s as [|c s]; [done|].
    intros [Hc H]%andb_true_iff.
    destruct (IH _ _ H) as (s1 & s2 & prev' & -> & Hlen & Hall & Hk).
    exists (c :: s1), s2, prev'. simpl.
    repeat split; [by rewrite Hlen|by constructor|done].
Qed.

Lemma many_class cl fuel prev s k :
  many fuel (run (Class cl)) prev s k = true →
  ∃ s1 s2 prev', s = s1 ++ s2
                 ∧ Forall (λ c, inClass cl c = true) s1
                 ∧ k prev' s2 = true.
Proof.
  revert prev s. induction fuel as [|fuel IH]; intros prev s; simpl.
  - rewrite orb_false_r. intros H. by exists [], s, prev.
  - intros [H|H]%orb_true_iff; [by exists [], s, prev|].
    destruct s as [|c s]; [done|].
    apply andb_true_iff in H as [Hc [_ H]%andb_true_iff].
    destruct (IH _ _ H) as (s1 & s2 & prev' & -> & Hall & Hk).
    exists (c :: s1), s2, prev'. simpl.
    repeat split; [by constructor|done].
Qed.

Lemma run_atLeast_class cl n prev s k :
  run (atLeast n (Class cl)) prev s k = true →
  ∃ s1 s2 prev', s = s1 ++ s2 ∧ n ≤ length s1
                 ∧ Forall (λ c, inClass cl c = true) s1
                 ∧ k prev' s2 = true.
Proof.
  simpl. intros H.
  destruct (times_class _ _ _ _ _ H) as (s1 & s2 & p1 & -> & Hlen & Ha1 & H').
  destruct (many_class _ _ _ _ _ H') as (s3 & s4 & p2 & -> & Ha3 & Hk).
  exists (s1 ++ s3), s4, p2. rewrite length_app, app_assoc.
  repeat split; [lia|by apply Forall_app|done].
Qed.

End RegExpFacts.

(** ** The claims about [validateField] *)

Module ValidationClaims.
Import JS RegExp Obj Dom Validation Effects Spec.
Import JSFacts ValidationFacts RegExpFacts.
Import Samples.

Local Open Scope char_scope.

Lemma crossField_code p rules fieldName v :
  (if bool_decide (fieldName = lit "confirmPassword")
      && negb (bool_decide (v = passwordValue p))
   then invalid (message rules) else valid)
  = crossField p rules fieldName v.
Proof.
  unfold crossField.
  case_bool_decide as Hf; simpl.
  - case_bool_decide as Hv; simpl; case_decide as Hd; try done.
    + by destruct Hd.
    + destruct Hd. by split.
  - case_decide as Hd; [by destruct Hd|done].
Qed.

(** A check the script found passing does not fail in the stated sense. *)
Local Ltac check_passes :=
  first [ rewrite <- tooShort_spec
        | rewrite <- tooLong_spec by (by eapply own_rule_maxLength)
        | rewrite <- patternFails_spec
        | rewrite <- outOfRange_spec ];
  congruence.

(** The script and the stated order of checks agree on every declared
    field. *)
Lemma validateField_verdict p fieldName rules v :
  get validationRules fieldName = Own rules →
  verdict p rules fieldName v (validateField p fieldName v).
Proof.
  intros Hown. unfold validateField. rewrite (rulesOf_own _ _ Hown).
  destruct (blank v) eqn:Hb.
  - apply blank_trim_nil in Hb. rewrite andb_true_r.
    destruct (required rules) eqn:Hr.
    + rewrite (getFieldLabel_own _ _ Hown). by apply VRequired.
    + by apply VEmpty.
  - apply blank_false in Hb. rewrite andb_false_r.
    destruct (tooShort rules (trim v)) eqn:H1.
    { apply (VFails _ _ _ _ [] MinLength [MaxLength; Pattern; Range]);
        [done|done|constructor|by apply tooShort_spec]. }
    destruct (tooLong rules (trim v)) eqn:H2.
    { apply (VFails _ _ _ _ [MinLength] MaxLength [Pattern; Range]);
        [done|done|repeat constructor; check_passes|].
      apply tooLong_spec; [by eapply own_rule_maxLength|done]. }
    destruct (patternFails rules (trim v)) eqn:H3.
    { apply (VFails _ _ _ _ [MinLength; MaxLength] Pattern [Range]);
        [done|done|repeat constructor; check_passes
        |by apply patternFails_spec]. }
    destruct (outOfRange rules (trim v)) eqn:H4.
    { apply (VFails _ _ _ _ [MinLength; MaxLength; Pattern] Range []);
        [done|done|repeat constructor; check_passes
        |by apply outOfRange_spec]. }
    rewrite crossField_code. apply VPasses; [done|].
    repeat constructor; check_passes.
Qed.

(** The verdict of the stated order is unique. *)
Lemma verdict_functional p rules fieldName v r1 r2 :
  verdict p rules fieldName v r1 → verdict p rules fieldName v r2 → r1 = r2.
Proof.
  intros H1 H2.
  destruct H1 as [? ?|? ?|b1 c1 a1 ? E1 F1 G1|? F1];
    destruct H2 as [? ?|? ?|b2 c2 a2 ? E2 F2 G2|? F2];
    try done; try congruence.
  - exfalso. rewrite Forall_forall in F2. apply (F2 c1); [|done].
    rewrite E1. apply elem_of_app. right. apply elem_of_cons. by left.
  - exfalso. rewrite Forall_forall in F1. apply (F1 c2); [|done].
    rewrite E2. apply elem_of_app. right. apply elem_of_cons. by left.
Qed.

(** C1. For a field with a declared rule, the result of [validateField]
    is the one verdict of the checks in their stated order: emptiness first
    (a required field fails, an optional one passes), then the first
    failing check among minimum length, maximum length, pattern and numeric
    range on the trimmed value, where the range check fails exactly when
    [parseInt] gives not-a-number or a number outside the bounds. *)
Theorem validateField_check_order p fieldName rules v :
  get validationRules fieldName = Own rules →
  verdict p rules fieldName v (validateField p fieldName v)
  ∧ ∀ r, verdict p rules fieldName v r → r = validateField p fieldName v.
Proof.
  intros Hown.
  pose proof (validateField_verdict p fieldName rules v Hown) as Hv.
  split; [exact Hv|].
  intros r Hr. exact (verdict_functional _ _ _ _ _ _ Hr Hv).
Qed.

Lemma validateField_check_order_witness :
  get validationRules (lit "age")
    = Own (Rule false None None None (Some 13%Z) (Some 120%Z)
             (Some (lit "Age must be between 13 and 120 years")))
  ∧ verdict ∅
      (Rule false None None None (Some 13%Z) (Some 120%Z)
         (Some (lit "Age must be between 13 and 120 years")))
      (lit "age") (lit "121") (validateField ∅ (lit "age") (lit "121")).
Proof.
  split; [vm_compute; reflexivity|].
  apply (validateField_check_order ∅ (lit "age")). vm_compute. reflexivity.
Defined.

(** The fields whose rule is not marked required. *)
Lemma optional_fields fieldName rules :
  get validationRules fieldName = Own rules → required rules = false →
  fieldName ∈ lit <$> ["phone"; "age"; "website"]%string.
Proof.
  intros H%own_rule_cases Hr. unfold validationRules in H.
  repeat (apply elem_of_cons in H as [[= -> ->]|H];
          [first [discriminate Hr | set_solver]|]).
  by apply elem_of_nil in H.
Qed.

(** C2. A field whose rule is not marked required (these are phone, age
    and website) is valid whenever its value is empty or trims to empty,
    whatever its other constraints; in particular the empty phone is
    valid. *)
Theorem optional_blank_is_valid p fieldName rules v :
  get validationRules fieldName = Own rules →
  required rules = false →
  v = [] ∨ trim v = [] →
  validateField p fieldName v = valid
  ∧ fieldName ∈ lit <$> ["phone"; "age"; "website"]%string
  ∧ validateField p (lit "phone") (lit "") = valid.
Proof.
  intros Hown Hr Hv. split; [|split; [by eapply optional_fields|done]].
  assert (blank v = true) as Hb.
  { apply blank_trim_nil. by destruct Hv as [->|?]. }
  unfold validateField. rewrite (rulesOf_own _ _ Hown), Hr, Hb. done.
Qed.

Lemma optional_blank_is_valid_witness :
  validateField (pageWithPassword "Abcdef1!") (lit "website") (lit "   ")
    = valid
  ∧ lit "website" ∈ lit <$> ["phone"; "age"; "website"]%string
  ∧ validateField (pageWithPassword "Abcdef1!") (lit "phone") (lit "") = valid.
Proof.
  apply (optional_blank_is_valid _ (lit "website")
           (Rule false None None (Some websitePattern) None None
              (Some (lit "Please enter a valid URL (include http:// or https://)")))
           (lit "   ")).
  - vm_compute. reflexivity.
  - reflexivity.
  - right. vm_compute. reflexivity.
Defined.

(** The confirm-password rule has no length, pattern or range attribute,
    so its generic checks are passed as soon as the input is not blank. *)
Lemma confirmPassword_generic_checks rules t :
  get validationRules (lit "confirmPassword") = Own rules →
  Forall (λ c, ¬ failsCheck rules t c) checkOrder.
Proof.
  intros Hown. vm_compute in Hown. injection Hown as <-.
  repeat constructor; simpl.
  - by intros (? & ? & _).
  - by intros (? & ? & _).
  - by intros (? & ? & _).
  - by intros [[?|?] _].
Qed.

Lemma confirmPassword_verdict p rules v :
  get validationRules (lit "confirmPassword") = Own rules →
  trim v ≠ [] →
  validateField p (lit "confirmPassword") v
  = crossField p rules (lit "confirmPassword") (trim v).
Proof.
  intros Hown Hne.
  eapply verdict_functional; [by apply validateField_verdict|].
  apply VPasses; [done|]. by apply confirmPassword_generic_checks.
Qed.

Lemma passwordValue_lookup (p : page) :
  passwordValue p = from_option value [] (p !! lit "password").
Proof.
  unfold passwordValue, getElementById. by destruct (p !! lit "password").
Qed.

Lemma confirmPassword_cross p rules v :
  get validationRules (lit "confirmPassword") = Own rules →
  trim v ≠ [] →
  (isValid (validateField p (lit "confirmPassword") v) = true
     ↔ trim v = passwordValue p)
  ∧ (trim v ≠ passwordValue p →
     validateField p (lit "confirmPassword") v = invalid (message rules)).
Proof.
  intros Hown Hne.
  rewrite (confirmPassword_verdict p rules v Hown Hne).
  split.
  - unfold crossField. case_decide as Hd; simpl.
    + destruct Hd as [_ Hd]. split; [done|]. intros ?. done.
    + split; [|done]. intros _.
      destruct (decide (trim v = passwordValue p)); [done|].
      destruct Hd. by split.
  - intros Hd. unfold crossField. rewrite decide_True; [done|by split].
Qed.

(** C3. For a non-empty input that passes the generic checks of the
    confirm-password field (for this rule: it is not empty after trimming),
    the field is valid exactly when the trimmed input equals the value
    that the password element of the page holds at that moment (the empty
    string when the page has no such element), and a mismatch fails with
    the rule's message.  On a page whose password element holds
    "Abcdef1!", the input "Abcdef1!" is valid and the input "different" is
    not. *)
Theorem confirmPassword_matches_password (p : page) rules (v : jsstring) :
  get validationRules (lit "confirmPassword") = Own rules →
  trim v ≠ [] →
  Forall (λ c, ¬ failsCheck rules (trim v) c) checkOrder
  ∧ (isValid (validateField p (lit "confirmPassword") v) = true
       ↔ trim v = from_option value [] (p !! lit "password"))
  ∧ (trim v ≠ from_option value [] (p !! lit "password") →
     validateField p (lit "confirmPassword") v = invalid (message rules))
  ∧ message rules = Some (lit "Passwords do not match")
  ∧ (∀ field,
       p !! lit "password" = Some field →
       value field = lit "Abcdef1!" →
       isValid (validateField p (lit "confirmPassword") (lit "Abcdef1!"))
       = true
       ∧ isValid (validateField p (lit "confirmPassword") (lit "different"))
         = false).
Proof.
  intros Hown Hne.
  split; [by apply confirmPassword_generic_checks|].
  rewrite <- passwordValue_lookup.
  destruct (confirmPassword_cross p rules v Hown Hne) as [Hiff Hmis].
  split; [exact Hiff|]. split; [exact Hmis|]. split.
  - vm_compute in Hown. by injection Hown as <-.
  - intros field Hfield Hvalue.
    assert (passwordValue p = lit "Abcdef1!") as Hp.
    { by rewrite passwordValue_lookup, Hfield. }
    destruct (confirmPassword_cross p rules (lit "Abcdef1!") Hown)
      as [Hsame _]; [vm_compute; discriminate|].
    destruct (confirmPassword_cross p rules (lit "different") Hown)
      as [_ Hother]; [vm_compute; discriminate|].
    split.
    + apply Hsame. rewrite Hp. vm_compute. reflexivity.
    + rewrite Hother; [done|]. rewrite Hp. vm_compute. discriminate.
Qed.

Lemma confirmPassword_matches_password_witness :
  isValid (validateField (pageWithPassword "Abcdef1!")
             (lit "confirmPassword") (lit "Abcdef1!")) = true
  ∧ validateField (pageWithPassword "Abcdef1!")
      (lit "confirmPassword") (lit "different")
    = invalid (Some (lit "Passwords do not match")).
Proof.
  split.
  - destruct (confirmPassword_matches_password (pageWithPassword "Abcdef1!")
                (Rule true None None None None None
                   (Some (lit "Passwords do not match")))
                (lit "Abcdef1!")) as (_ & Hiff & _).
    + vm_compute. reflexivity.
    + vm_compute. discriminate.
    + apply Hiff. vm_compute. reflexivity.
  - destruct (confirmPassword_matches_password (pageWithPassword "Abcdef1!")
                (Rule true None None None None None
                   (Some (lit "Passwords do not match")))
                (lit "different")) as (_ & _ & Hmis & _).
    + vm_compute. reflexivity.
    + vm_compute. discriminate.
    + apply Hmis. vm_compute. discriminate.
Defined.

(** The two confirm-password examples of the specification. *)
Example confirmPassword_examples :
  isValid (validateField (pageWithPassword "Abcdef1!")
             (lit "confirmPassword") (lit "Abcdef1!")) = true
  ∧ isValid (validateField (pageWithPassword "Abcdef1!")
               (lit "confirmPassword") (lit "different")) = false.
Proof. split; vm_compute; reflexivity. Qed.

(** C4. A result carries a message only when it is invalid; a required
    field that is empty after trimming fails with its label followed by
    " is required", the label being the entry of the fixed mapping, or the
    raw identifier for a name without entry; every other failure carries
    the rule's message. *)
Theorem validateField_messages p fieldName rules v :
  get validationRules fieldName = Own rules →
  (isValid (validateField p fieldName v) = true →
   resultMessage (validateField p fieldName v) = None)
  ∧ (required rules = true → trim v = [] →
     validateField p fieldName v
       = invalid (Some (getFieldLabel fieldName ++ lit " is required")))
  ∧ (∀ name l, get labels name = Own l → getFieldLabel name = l)
  ∧ (∀ name, get labels name = Undefined → getFieldLabel name = name)
  ∧ (isValid (validateField p fieldName v) = false →
     ¬ (required rules = true ∧ trim v = []) →
     validateField p fieldName v = invalid (message rules)).
Proof.
  intros Hown.
  pose proof (validateField_verdict p _ _ v Hown) as Hv.
  split; [|split; [|split; [|split]]].
  - destruct Hv; simpl; try done.
    unfold crossField. by case_decide.
  - intros Hr Ht. rewrite (getFieldLabel_own _ _ Hown).
    eapply verdict_functional; [exact Hv|]. by apply VRequired.
  - intros name l. unfold get, getFieldLabel.
    destruct (assoc labels name) as [l'|] eqn:E; [|by case_decide].
    intros [= <-].
    apply assoc_elem_of in E. unfold labels in E.
    repeat (apply elem_of_cons in E as [[= _ ->]|E]; [done|]).
    by apply elem_of_nil in E.
  - intros name. unfold get, getFieldLabel.
    by destruct (assoc labels name).
  - intros Hinv Hnot. destruct Hv as [Ht Hr|Ht Hr|? ? ? Ht|Ht Hall]; simpl in *.
    + destruct Hnot. done.
    + done.
    + done.
    + revert Hinv. unfold crossField. by case_decide.
Qed.

Lemma validateField_messages_witness :
  validateField ∅ (lit "email") (lit "  ")
    = invalid (Some (lit "Email Address is required")).
Proof.
  destruct (validateField_messages ∅ (lit "email")
              (Rule true None None (Some emailPattern) None None
                 (Some (lit "Please enter a valid email address (example: user@domain.com)")))
              (lit "  ")) as (_ & Hreq & _).
  - vm_compute. reflexivity.
  - apply Hreq; vm_compute; reflexivity.
Defined.

Lemma age_rule :
  get validationRules (lit "age")
  = Own (Rule false None None None (Some 13%Z) (Some 120%Z)
           (Some (lit "Age must be between 13 and 120 years"))).
Proof. vm_compute. reflexivity. Qed.

Lemma validateField_age p v :
  validateField p (lit "age") v
  = if blank v then valid
    else match parseInt10 (trim v) with
         | None => invalid (Some (lit "Age must be between 13 and 120 years"))
         | Some n =>
             if (n <? 13)%Z || (120 <? n)%Z
             then invalid (Some (lit "Age must be between 13 and 120 years"))
             else valid
         end.
Proof.
  unfold validateField. rewrite (rulesOf_own _ _ age_rule).
  cbn [required minLength maxLength pattern min max message andb].
  destruct (blank v); [done|].
  unfold tooShort, tooLong, patternFails, outOfRange.
  cbn [required minLength maxLength pattern min max message isSome orb].
  destruct (parseInt10 (trim v)) as [n|]; [|done].
  destruct ((n <? 13)%Z || (120 <? n)%Z); [done|].
  rewrite bool_decide_eq_false_2; [done|]. vm_compute. discriminate.
Qed.

Lemma age_invalid_iff p v :
  trim v ≠ [] →
  isValid (validateField p (lit "age") v) = false ↔ ageFails v.
Proof.
  intros Hne%blank_false. rewrite validateField_age, Hne. unfold ageFails.
  destruct (parseInt10 (trim v)) as [n|]; simpl.
  - destruct ((n <? 13)%Z || (120 <? n)%Z) eqn:E; simpl.
    + split; [|done]. intros _. right. exists n. split; [done|].
      apply orb_true_iff in E as [E|E]; [left|right]; by apply Z.ltb_lt.
    + split; [done|]. intros [?|(n' & [= <-] & H)]; [done|].
      apply orb_false_iff in E as [E1 E2].
      apply Z.ltb_ge in E1, E2. lia.
  - split; [|done]. intros _. by left.
Qed.

(** C7, as the script has it. For every value that is not empty after
    trimming, the age field is invalid exactly when [parseInt] of the
    trimmed value is not-a-number, or is below 13, or is above 120; so
    "12" and "121" are invalid and "13" is valid. *)
Theorem age_range_verdict p v :
  trim v ≠ [] →
  (isValid (validateField p (lit "age") v) = false ↔ ageFails v)
  ∧ isValid (validateField p (lit "age") (lit "12")) = false
  ∧ isValid (validateField p (lit "age") (lit "13")) = true
  ∧ isValid (validateField p (lit "age") (lit "121")) = false.
Proof.
  intros Hne. split; [by apply age_invalid_iff|].
  rewrite !validateField_age. repeat split; vm_compute; reflexivity.
Qed.

Lemma age_range_verdict_witness :
  trim (lit " 12 ") ≠ []
  ∧ (isValid (validateField ∅ (lit "age") (lit " 12 ")) = false
       ↔ ageFails (lit " 12 ")).
Proof.
  split; [vm_compute; discriminate|].
  apply (age_range_verdict ∅ (lit " 12 ")). vm_compute. discriminate.
Defined.

(** The age examples of the specification. *)
Example age_examples :
  isValid (validateField ∅ (lit "age") (lit "12")) = false
  ∧ isValid (validateField ∅ (lit "age") (lit "13")) = true
  ∧ isValid (validateField ∅ (lit "age") (lit "121")) = false.
Proof. repeat split; vm_compute; reflexivity. Qed.

(** C7 as stated fails on a value of white space only: it is not empty,
    the parse of its trimmed text is not-a-number, and yet the optional
    field is valid. *)
Lemma age_whitespace_counterexample :
  ¬ (∀ p v, v ≠ [] →
       isValid (validateField p (lit "age") v) = false ↔ ageFails v).
Proof.
  intros H. destruct (H ∅ (lit " ")) as [_ Hback]; [vm_compute; discriminate|].
  assert (isValid (validateField ∅ (lit "age") (lit " ")) = false) as Hf.
  { apply Hback. left. vm_compute. reflexivity. }
  vm_compute in Hf. discriminate.
Qed.

Lemma validateFieldM_pure (fieldName v : jsstring) (p : page) :
  validateFieldM fieldName v p = (validateField p fieldName v, p).
Proof.
  unfold validateFieldM, validateField.
  destruct (rulesOf fieldName) as [rules|]; [|done].
  destruct (required rules && blank v); [done|].
  destruct (blank v); [done|]. cbv zeta.
  destruct (tooShort rules (trim v)); [done|].
  destruct (tooLong rules (trim v)); [done|].
  destruct (patternFails rules (trim v)); [done|].
  destruct (outOfRange rules (trim v)); [done|].
  destruct (bool_decide (fieldName = lit "confirmPassword")); [|done].
  unfold bind, readPasswordValue, passwordValue, getElementById.
  cbn [andb]. by destruct (negb _).
Qed.

(** C8. Run as a computation on the page, [validateField] hands the page
    on exactly as it found it, so it has no effect on it; its result is
    that of the function the other properties are about; two calls in a
    row with the same field name and value return the same result twice;
    and two pages whose password elements hold the same value (none
    counting as the empty value) give the same result, whatever else of
    the pages differs. *)
Theorem validateField_deterministic (p1 p2 : page) (fieldName v : jsstring) :
  from_option value [] (p1 !! lit "password")
  = from_option value [] (p2 !! lit "password") →
  (validateFieldM fieldName v p1).1 = (validateFieldM fieldName v p2).1
  ∧ (validateFieldM fieldName v p1).2 = p1
  ∧ (validateFieldM fieldName v p1).1 = validateField p1 fieldName v
  ∧ validateTwice fieldName v p1
    = ((validateField p1 fieldName v, validateField p1 fieldName v), p1).
Proof.
  intros Hpw. unfold validateTwice, bind.
  rewrite !validateFieldM_pure. cbn [fst snd ret].
  split; [|done].
  unfold validateField. by rewrite !passwordValue_lookup, Hpw.
Qed.

Lemma validateField_deterministic_witness :
  (validateFieldM (lit "confirmPassword") (lit "Abcdef1!")
     (pageWithPassword "Abcdef1!")).1
  = (validateFieldM (lit "confirmPassword") (lit "Abcdef1!")
       (otherPageWithPassword "Abcdef1!")).1.
Proof.
  refine (proj1 (validateField_deterministic (pageWithPassword "Abcdef1!")
                   (otherPageWithPassword "Abcdef1!")
                   (lit "confirmPassword") (lit "Abcdef1!") _)).
  vm_compute. reflexivity.
Defined.

(** The value of the password element does matter: the same call on two
    pages that differ in it gives different results. *)
Example validateField_reads_password :
  validateField (pageWithPassword "Abcdef1!")
    (lit "confirmPassword") (lit "Abcdef1!")
  ≠ validateField (pageWithPassword "Abcdef1?")
      (lit "confirmPassword") (lit "Abcdef1!").
Proof. vm_compute. discriminate. Qed.

(** C9. White space around the value never changes the result: the
    value and its trimmed form validate alike. *)
Theorem validateField_trim p fieldName v :
  validateField p fieldName v = validateField p fieldName (trim v).
Proof.
  unfold validateField. destruct (rulesOf fieldName) as [rules|]; [|done].
  by rewrite blank_trim, trim_idem.
Qed.

(** The live password value is compared as it is, not trimmed. *)
Example password_compared_untrimmed :
  isValid (validateField (pageWithPassword " Abcdef1! ")
             (lit "confirmPassword") (lit " Abcdef1! ")) = false.
Proof. vm_compute. reflexivity. Qed.

Lemma inClass_phone c :
  inClass (CharClass false phoneClass) c = isPhoneChar c.
Proof.
  change (inClass (CharClass false phoneClass) c)
    with (inRanges (digit ++ space ++ [one "-"; one "("; one ")"]) c).
  unfold isPhoneChar.
  rewrite !inRanges_app, space_isWhiteSpace, orb_assoc.
  unfold inRanges, digit, one, isDigit, code. cbn [existsb].
  rewrite !range_single, !orb_false_r, !orb_assoc. done.
Qed.

Lemma run_seq r1 r2 prev s k :
  run (Seq r1 r2) prev s k = run r1 prev s (λ prev' s', run r2 prev' s' k).
Proof. reflexivity. Qed.

(** What the phone pattern accepts. *)
Lemma phonePattern_shape t :
  test phonePattern t = true →
  ∃ body, (t = body ∨ t = code "+" :: body)
          ∧ Forall (λ c, isPhoneChar c = true) body
          ∧ 10 ≤ length body.
Proof.
  unfold phonePattern, seqs, set. rewrite test_bol, !run_seq.
  intros H.
  assert (∀ prev s,
    run (atLeast 10 (Class (CharClass false phoneClass))) prev s
        (λ prev' s', run Eol prev' s' (λ _ _, true)) = true →
    Forall (λ c, isPhoneChar c = true) s ∧ 10 ≤ length s) as Hbody.
  { intros prev s Hs.
    apply run_atLeast_class in Hs as (s1 & s2 & prev' & -> & Hlen & Hall & Hk).
    destruct s2; [|done]. rewrite app_nil_r. split; [|done].
    eapply Forall_impl; [exact Hall|]. intros c Hc. by rewrite <- inClass_phone. }
  assert (∀ prev s,
    run (opt (Class (CharClass false [one "("]))) prev s
        (λ prev' s', run (atLeast 10 (Class (CharClass false phoneClass)))
                       prev' s'
                       (λ prev'' s'', run Eol prev'' s'' (λ _ _, true)))
      = true →
    Forall (λ c, isPhoneChar c = true) s ∧ 10 ≤ length s) as Hparen.
  { intros prev s Hs.
    apply run_opt_class in Hs as [Hs|(c & s' & -> & Hc & Hs)].
    - by eapply Hbody.
    - apply Hbody in Hs as [Hall Hlen]. split; [|simpl; lia].
      constructor; [|done].
      unfold inClass, inRanges, one in Hc. simpl in Hc.
      rewrite orb_false_r in Hc.
      apply andb_true_iff in Hc as [Hc1 Hc2].
      apply N.leb_le in Hc1, Hc2.
      assert (c = 40%N) as -> by lia. done. }
  apply run_opt_class in H as [H|(c & s' & -> & Hc & H)].
  - apply Hparen in H as [Hall Hlen]. exists t. auto.
  - apply Hparen in H as [Hall Hlen]. exists s'. split; [right|done].
    unfold inClass, inRanges, one in Hc. simpl in Hc.
    rewrite orb_false_r in Hc.
    apply andb_true_iff in Hc as [Hc1 Hc2].
    apply N.leb_le in Hc1, Hc2.
    assert (c = 43%N) as -> by lia. done.
Qed.

Lemma phone_rule :
  get validationRules (lit "phone")
  = Own (Rule false None None (Some phonePattern) None None
           (Some (lit "Please enter a valid phone number (at least 10 digits)"))).
Proof. vm_compute. reflexivity. Qed.

Lemma validateField_phone p v :
  validateField p (lit "phone") v
  = if blank v then valid
    else if test phonePattern (trim v) then valid
    else invalid
           (Some (lit "Please enter a valid phone number (at least 10 digits)")).
Proof.
  unfold validateField. rewrite (rulesOf_own _ _ phone_rule).
  cbn [required minLength maxLength pattern min max message andb].
  destruct (blank v); [done|].
  unfold tooShort, tooLong, patternFails, outOfRange.
  cbn [required minLength maxLength pattern min max message isSome orb].
  destruct (test phonePattern (trim v)); [|done].
  cbn [negb].
  rewrite bool_decide_eq_false_2; [done|]. vm_compute. discriminate.
Qed.

(** C6, as the script has it. A phone value that is not empty after
    trimming is valid only if its trimmed text is an optional leading plus
    followed by at least 10 characters, each a digit, white space, a
    parenthesis or a hyphen. *)
Theorem phone_valid_shape p v :
  trim v ≠ [] →
  isValid (validateField p (lit "phone") v) = true →
  ∃ body, (trim v = body ∨ trim v = code "+" :: body)
          ∧ Forall (λ c, isPhoneChar c = true) body
          ∧ 10 ≤ length body.
Proof.
  intros Hne%blank_false. rewrite validateField_phone, Hne.
  destruct (test phonePattern (trim v)) eqn:E; [|done].
  intros _. by apply phonePattern_shape.
Qed.

Lemma phone_valid_shape_witness :
  ∃ body, (trim (lit " +1 (555) 123-4567 ") = body
           ∨ trim (lit " +1 (555) 123-4567 ") = code "+" :: body)
          ∧ Forall (λ c, isPhoneChar c = true) body
          ∧ 10 ≤ length body.
Proof.
  apply (phone_valid_shape ∅).
  - vm_compute. discriminate.
  - vm_compute. reflexivity.
Defined.

(** C6 as stated fails: ten hyphens are a valid phone value without a
    single digit. *)
Lemma phone_digits_counterexample :
  ¬ (∀ p v, v ≠ [] →
       isValid (validateField p (lit "phone") v) = true → phoneShape v).
Proof.
  intros H.
  destruct (H ∅ (lit "----------")) as (body & _ & _ & Hdigits).
  - vm_compute. discriminate.
  - vm_compute. reflexivity.
  - vm_compute in Hdigits. lia.
Qed.

(** A value of white space only is valid too, the field being optional. *)
Example phone_whitespace_valid :
  isValid (validateField ∅ (lit "phone") (lit " ")) = true.
Proof. vm_compute. reflexivity. Qed.

End ValidationClaims.

(** ** Properties of the submission controller *)

Module FormFacts.
Import JS Obj Dom Validation Form Spec.

Lemma alter_fieldValue (g : element → element) (id : jsstring) (p : page)
    (k : jsstring) :
  (∀ e, value (g e) = value e) →
  fieldValue (alter g id p) k = fieldValue p k.
Proof.
  intros Hg. unfold fieldValue, getElementById. rewrite lookup_alter.
  case_decide as Hk; [|done]. subst k.
  destruct (p !! id) as [e|]; simpl; [|done]. by rewrite Hg.
Qed.

Global Instance sameValues_equiv : Equivalence sameValues.
Proof.
  split.
  - by intros p id.
  - intros p q H id. by rewrite H.
  - intros p q r H1 H2 id. by rewrite H1.
Qed.

(** Showing a verdict changes no value. *)
Lemma updateFieldUI_sameValues (p : page) (fieldName : jsstring) r :
  sameValues (updateFieldUI p fieldName r) p.
Proof.
  intros k. unfold updateFieldUI.
  destruct (getElementById p fieldName) as [field|]; [|done].
  destruct (isValid r), (negb (isEmpty (trim (value field))));
    by rewrite !alter_fieldValue.
Qed.

Lemma sameValues_passwordValue (p q : page) :
  sameValues p q → passwordValue p = passwordValue q.
Proof.
  intros H. specialize (H (lit "password")).
  unfold passwordValue. unfold fieldValue in H.
  destruct (getElementById p (lit "password")),
           (getElementById q (lit "password")); simpl in H; congruence.
Qed.

Lemma sameValues_validateField (p q : page) (fieldName v : jsstring) :
  sameValues p q → validateField p fieldName v = validateField q fieldName v.
Proof.
  intros H%sameValues_passwordValue. unfold validateField. by rewrite H.
Qed.

Lemma sameValues_fieldResult (p q : page) (fieldName : jsstring) :
  sameValues p q → fieldResult p fieldName = fieldResult q fieldName.
Proof.
  intros H. unfold fieldResult. rewrite (H fieldName).
  destruct (fieldValue q fieldName); simpl; [|done].
  by rewrite (sameValues_validateField p q).
Qed.

(** One round of the loop, told from the page the submission started
    with. *)
Lemma submitField_step (p0 : page) st (fieldName : jsstring) :
  sameValues (pageNow st) p0 →
  sameValues (pageNow (submitField st fieldName)) p0
  ∧ errors (submitField st fieldName)
    = errors st ++ option_list (fieldReport p0 fieldName)
  ∧ formData (submitField st fieldName)
    = from_option (λ v, <[fieldName := v]> (formData st)) (formData st)
        (fieldEntry p0 fieldName)
  ∧ isFormValid (submitField st fieldName)
    = isFormValid st && fieldPasses p0 fieldName.
Proof.
  intros Hsame.
  unfold fieldReport, fieldEntry, fieldPasses.
  rewrite <- (sameValues_fieldResult _ _ fieldName Hsame).
  rewrite <- (Hsame fieldName).
  unfold submitField, fieldResult, fieldValue.
  destruct (getElementById (pageNow st) fieldName) as [field|]; simpl.
  - destruct (isValid (validateField (pageNow st) fieldName (value field)));
      simpl; (split; [by rewrite updateFieldUI_sameValues|]).
    + by rewrite app_nil_r, andb_true_r.
    + by rewrite andb_false_r.
  - by rewrite app_nil_r, andb_true_r.
Qed.

Lemma submit_fold (p0 : page) (names : list jsstring) st :
  sameValues (pageNow st) p0 →
  sameValues (pageNow (foldl submitField st names)) p0
  ∧ errors (foldl submitField st names)
    = errors st ++ omap (fieldReport p0) names
  ∧ (∀ k, formData (foldl submitField st names) !! k
          = if decide (k ∈ names ∧ is_Some (fieldEntry p0 k))
            then fieldEntry p0 k else formData st !! k)
  ∧ isFormValid (foldl submitField st names)
    = isFormValid st && forallb (fieldPasses p0) names.
Proof.
  revert st. induction names as [|f names IH]; intros st Hsame;
    simpl foldl; simpl (omap _ _); simpl forallb.
  - rewrite app_nil_r, andb_true_r. split; [done|]. split; [done|].
    split; [|done].
    intros k. rewrite decide_False; [done|]. intros [[]%elem_of_nil _].
  - destruct (submitField_step p0 st f Hsame) as (Hs & He & Hd & Hv).
    destruct (IH _ Hs) as (Hs' & He' & Hd' & Hv').
    split; [done|]. split; [|split].
    + rewrite He', He, <- app_assoc. f_equal.
      by destruct (fieldReport p0 f).
    + intros k. rewrite Hd', Hd.
      destruct (decide (k ∈ names ∧ is_Some (fieldEntry p0 k)))
        as [[Hin Hsome]|Hno].
      * rewrite decide_True; [done|]. split; [|done].
        apply elem_of_cons. by right.
      * destruct (decide (k = f)) as [->|Hne].
        -- destruct (fieldEntry p0 f) as [v|] eqn:E; simpl.
           ++ rewrite lookup_insert_eq, decide_True; [done|].
              split; [apply elem_of_cons; by left|by eexists].
           ++ rewrite decide_False; [done|]. by intros [_ [? ?]].
        -- assert (from_option (λ v, <[f:=v]> (formData st)) (formData st)
                     (fieldEntry p0 f) !! k = formData st !! k) as ->.
           { destruct (fieldEntry p0 f); simpl; [|done].
             by rewrite lookup_insert_ne. }
           rewrite decide_False; [done|].
           intros [[?|?]%elem_of_cons ?]; [done|]. apply Hno. by split.
    + by rewrite Hv', Hv, andb_assoc.
Qed.

(** What a submission collects, told from the page it starts with. *)
Lemma onSubmit_collects (p : page) :
  errors (finalState (onSubmit p)) = omap (fieldReport p) fieldNames
  ∧ (∀ k, formData (finalState (onSubmit p)) !! k
          = if decide (k ∈ fieldNames) then fieldEntry p k else None)
  ∧ isFormValid (finalState (onSubmit p)) = forallb (fieldPasses p) fieldNames.
Proof.
  unfold onSubmit. cbn [finalState].
  destruct (submit_fold p fieldNames (SubmitState true ∅ [] p))
    as (_ & He & Hd & Hv); [done|].
  split; [exact He|]. split; [|exact Hv].
  intros k. rewrite Hd. cbn [formData]. rewrite lookup_empty.
  destruct (decide (k ∈ fieldNames)) as [Hin|Hout].
  - destruct (fieldEntry p k) eqn:E.
    + rewrite decide_True; [done|]. split; [done|by eexists].
    + rewrite decide_False; [done|]. by intros [_ [? ?]].
  - rewrite decide_False; [done|]. by intros [? _].
Qed.

Lemma onSubmit_outcome (p : page) :
  outcome (onSubmit p)
  = if isFormValid (finalState (onSubmit p))
    then SuccessfulSubmission (formData (finalState (onSubmit p)))
    else FailedSubmission (errors (finalState (onSubmit p))).
Proof. unfold onSubmit. cbv zeta. cbn [outcome finalState]. reflexivity. Qed.

Lemma fieldPasses_report (p : page) (f : jsstring) :
  fieldPasses p f = true → fieldReport p f = None.
Proof.
  unfold fieldPasses, fieldReport.
  destruct (fieldResult p f) as [r|]; simpl; [|done]. by intros ->.
Qed.

Lemma fieldPasses_entry (p : page) (f : jsstring) :
  fieldPasses p f = true → fieldEntry p f = fieldValue p f.
Proof.
  unfold fieldPasses, fieldEntry, fieldResult.
  destruct (fieldValue p f) as [v|]; simpl; [|done]. by intros ->.
Qed.

Lemma fieldFails_report (p : page) (f : jsstring) :
  fieldPasses p f = false →
  ∃ r, fieldResult p f = Some r ∧ isValid r = false
       ∧ fieldReport p f = Some (f, resultMessage r)
       ∧ fieldEntry p f = None.
Proof.
  unfold fieldPasses, fieldReport, fieldEntry.
  destruct (fieldResult p f) as [r|]; simpl; [|done].
  intros Hr. exists r. by rewrite Hr.
Qed.

Lemma omap_none {A B} (g : A → option B) (l : list A) :
  (∀ x, x ∈ l → g x = None) → omap g l = [].
Proof.
  induction l as [|x l IH]; intros H; [done|]. simpl (omap _ _).
  rewrite (H x) by (apply elem_of_cons; by left).
  apply IH. intros y Hy. apply H. apply elem_of_cons. by right.
Qed.

Lemma omap_single {A B} (g : A → option B) (l : list A) x0 y :
  NoDup l → x0 ∈ l → g x0 = Some y →
  (∀ x, x ∈ l → x ≠ x0 → g x = None) →
  omap g l = [y].
Proof.
  induction l as [|x l IH]; intros Hnd Hin Hg Hothers.
  - by apply elem_of_nil in Hin.
  - apply NoDup_cons in Hnd as [Hx Hnd]. simpl (omap _ _).
    apply elem_of_cons in Hin as [<-|Hin].
    + rewrite Hg. f_equal. apply omap_none.
      intros z Hz. apply Hothers; [apply elem_of_cons; by right|].
      intros ->. done.
    + rewrite (Hothers x); [|apply elem_of_cons; by left|by intros ->].
      apply IH; [done..|].
      intros z Hz. apply Hothers. apply elem_of_cons. by right.
Qed.

Lemma fieldNames_NoDup : NoDup fieldNames.
Proof. apply (bool_decide_unpack _). vm_compute. exact I. Qed.

Lemma forallb_fieldPasses (p : page) (names : list jsstring) :
  forallb (fieldPasses p) names = true
  ↔ ∀ f, f ∈ names → fieldPasses p f = true.
Proof.
  rewrite forallb_forall. split; intros H f Hf; apply H.
  - by apply list_elem_of_In.
  - by apply list_elem_of_In.
Qed.

(** *** What the page shows after a submission *)

Lemma app_ne_self (f s : jsstring) : s ≠ [] → f ≠ f ++ s.
Proof.
  intros Hs H. apply (f_equal length) in H. rewrite length_app in H.
  destruct s; [done|]. simpl in H. lia.
Qed.

Lemma updateFieldUI_other (p : page) (f : jsstring) r (k : jsstring) :
  k ≠ f → k ≠ f ++ lit "Error" → k ≠ f ++ lit "Success" →
  updateFieldUI p f r !! k = p !! k.
Proof.
  intros H1 H2 H3. unfold updateFieldUI.
  destruct (getElementById p f) as [field|]; [|done].
  destruct (isValid r), (negb (isEmpty (trim (value field))));
    by rewrite !lookup_alter_ne.
Qed.

Lemma updateFieldUI_self (p : page) (f : jsstring) r :
  is_Some (getElementById p f) →
  classError <$> (updateFieldUI p f r !! f) = Some (negb (isValid r)).
Proof.
  intros [field Hf]. unfold updateFieldUI. rewrite Hf.
  assert (f ++ lit "Error" ≠ f) as He.
  { intros H. by apply (app_ne_self f (lit "Error")). }
  assert (f ++ lit "Success" ≠ f) as Hs.
  { intros H. by apply (app_ne_self f (lit "Success")). }
  unfold getElementById in Hf.
  destruct (isValid r), (negb (isEmpty (trim (value field))));
    rewrite !lookup_alter_ne by done;
    rewrite !lookup_alter_eq, Hf; done.
Qed.

(** No declared field has the id of a message element. *)
Lemma fieldNames_ids :
  Forall (λ k, Forall (λ f, k ≠ f ++ lit "Error" ∧ k ≠ f ++ lit "Success")
                 fieldNames) fieldNames.
Proof. apply (bool_decide_unpack _). vm_compute. exact I. Qed.

Lemma sameValues_present (p q : page) (k : jsstring) :
  sameValues p q → is_Some (getElementById p k) ↔ is_Some (getElementById q k).
Proof.
  intros H. specialize (H k). unfold fieldValue in H.
  destruct (getElementById p k), (getElementById q k); simpl in H;
    try done; split; intros [? ?]; by eexists.
Qed.

Lemma submit_fold_shown (p0 : page) (names : list jsstring) st (k : jsstring) :
  sameValues (pageNow st) p0 →
  Forall (λ f, k ≠ f ++ lit "Error" ∧ k ≠ f ++ lit "Success") names →
  classError <$> (pageNow (foldl submitField st names) !! k)
  = if decide (k ∈ names ∧ is_Some (getElementById p0 k))
    then Some (negb (fieldPasses p0 k))
    else classError <$> (pageNow st !! k).
Proof.
  revert st. induction names as [|f names IH]; intros st Hsame Hids;
    simpl foldl.
  - rewrite decide_False; [done|]. intros [[]%elem_of_nil _].
  - apply Forall_cons in Hids as [[Hid1 Hid2] Hids].
    destruct (submitField_step p0 st f Hsame) as (Hs & _).
    rewrite (IH _ Hs Hids).
    destruct (decide (k ∈ names ∧ is_Some (getElementById p0 k)))
      as [[Hin Hp]|Hno].
    { rewrite decide_True; [done|]. split; [|done].
      apply elem_of_cons. by right. }
    destruct (decide (k = f)) as [->|Hne].
    + destruct (decide (is_Some (getElementById p0 f))) as [Hp|Hp].
      * rewrite decide_True by (split; [apply elem_of_cons; by left|done]).
        pose proof Hp as Hp'. rewrite <- (sameValues_present _ _ f Hsame) in Hp'.
        unfold fieldPasses.
        rewrite <- (sameValues_fieldResult _ _ f Hsame).
        unfold submitField, fieldResult, fieldValue.
        destruct Hp' as [field Hfield]. rewrite Hfield. simpl.
        assert (is_Some (getElementById (pageNow st) f)) as Hsome
          by by eexists.
        destruct (isValid (validateField (pageNow st) f (value field)))
          eqn:E; simpl; rewrite (updateFieldUI_self _ _ _ Hsome); simpl;
          by rewrite E.
      * rewrite decide_False by (by intros [_ ?]).
        rewrite <- (sameValues_present _ _ f Hsame) in Hp.
        unfold submitField.
        destruct (getElementById (pageNow st) f) eqn:E; [|done].
        destruct Hp. by eexists.
    + rewrite decide_False.
      2:{ intros [[?|?]%elem_of_cons ?]; [done|]. apply Hno. by split. }
      unfold submitField.
      destruct (getElementById (pageNow st) f) as [field|]; [|done].
      destruct (isValid (validateField (pageNow st) f (value field)));
        simpl; by rewrite updateFieldUI_other.
Qed.

End FormFacts.

(** ** The claim about the submit handler *)

Module FormClaims.
Import JS Obj Dom Validation Form Spec FormFacts Samples.

Lemma failing_fields (p : page) (f0 : jsstring) :
  filter (λ f, fieldPasses p f = false) fieldNames = [f0] →
  f0 ∈ fieldNames ∧ fieldPasses p f0 = false
  ∧ ∀ f, f ∈ fieldNames → f ≠ f0 → fieldPasses p f = true.
Proof.
  intros Hfil.
  assert (∀ f, f ∈ fieldNames ∧ fieldPasses p f = false ↔ f = f0) as Hchar.
  { intros f. rewrite <- (list_elem_of_singleton f f0), <- Hfil.
    rewrite list_elem_of_filter. tauto. }
  destruct (proj2 (Hchar f0) eq_refl) as [Hin Hfail].
  split; [done|]. split; [done|].
  intros f Hf Hne. destruct (fieldPasses p f) eqn:E; [done|].
  destruct Hne. apply Hchar. by split.
Qed.

(** C5. A submit always prevents the default action and validates every
    field again on the values the page holds, whatever verdicts it showed
    before.  On a page that has every declared field: if all fields pass,
    each field is shown with its own verdict; if all fields pass, the
    Error Report is empty and the payload maps exactly the declared field
    names to their values; if exactly one field fails, the Error Report is
    that field with its failure message, and every other field is in the
    payload with its value. *)
Theorem submit_revalidates_all (p : page) :
  Forall (λ f, is_Some (getElementById p f)) fieldNames →
  defaultPrevented (onSubmit p) = true
  ∧ (∀ q, sameValues q p → outcome (onSubmit q) = outcome (onSubmit p))
  ∧ (∀ f, f ∈ fieldNames →
          classError <$> (pageNow (finalState (onSubmit p)) !! f)
          = Some (negb (fieldPasses p f)))
  ∧ (forallb (fieldPasses p) fieldNames = true →
     outcome (onSubmit p)
       = SuccessfulSubmission (formData (finalState (onSubmit p)))
     ∧ errors (finalState (onSubmit p)) = []
     ∧ dom (formData (finalState (onSubmit p))) = list_to_set fieldNames
     ∧ ∀ f, f ∈ fieldNames →
            formData (finalState (onSubmit p)) !! f = fieldValue p f)
  ∧ (∀ f0, filter (λ f, fieldPasses p f = false) fieldNames = [f0] →
     ∃ r, fieldResult p f0 = Some r ∧ isValid r = false
          ∧ errors (finalState (onSubmit p)) = [(f0, resultMessage r)]
          ∧ outcome (onSubmit p) = FailedSubmission [(f0, resultMessage r)]
          ∧ formData (finalState (onSubmit p)) !! f0 = None
          ∧ ∀ f, f ∈ fieldNames → f ≠ f0 →
                 formData (finalState (onSubmit p)) !! f = fieldValue p f).
Proof.
  intros Hpresent. rewrite Forall_forall in Hpresent.
  destruct (onSubmit_collects p) as (He & Hd & Hv).
  split; [done|]. split; [|split; [|split]].
  - intros q Hq.
    destruct (onSubmit_collects q) as (Heq & Hdq & Hvq).
    assert (∀ f, fieldResult q f = fieldResult p f) as Hres.
    { intros f. by apply sameValues_fieldResult. }
    rewrite !onSubmit_outcome, Hv, Hvq, He, Heq.
    assert (formData (finalState (onSubmit q))
            = formData (finalState (onSubmit p))) as ->.
    { apply map_eq. intros k. rewrite Hd, Hdq.
      case_decide; [|done]. unfold fieldEntry. by rewrite Hres, (Hq k). }
    assert (∀ names : list jsstring, forallb (fieldPasses q) names
                     = forallb (fieldPasses p) names) as ->.
    { intros names. induction names as [|f names IH]; [done|].
      cbn [forallb]. rewrite IH. unfold fieldPasses. by rewrite Hres. }
    assert (∀ names : list jsstring, omap (fieldReport q) names
                     = omap (fieldReport p) names) as Hrep.
    { intros names. induction names as [|f names IH]; [done|].
      csimpl. rewrite IH. unfold fieldReport. by rewrite Hres. }
    by rewrite Hrep.
  - intros f Hf. unfold onSubmit. cbv zeta. cbn [finalState].
    rewrite (submit_fold_shown p); [|done|].
    + rewrite decide_True; [done|]. split; [done|by apply Hpresent].
    + pose proof fieldNames_ids as Hids. rewrite Forall_forall in Hids.
      by apply Hids.
  - intros Hall. pose proof Hall as Hall'.
    rewrite forallb_fieldPasses in Hall'.
    rewrite onSubmit_outcome, Hv, Hall, He.
    split; [done|]. split; [|split].
    + apply omap_none. intros f Hf. by apply fieldPasses_report, Hall'.
    + apply set_eq. intros k.
      rewrite elem_of_dom, Hd, elem_of_list_to_set.
      case_decide as Hk.
      * rewrite fieldPasses_entry by by apply Hall'.
        split; [done|]. intros _. unfold fieldValue.
        destruct (Hpresent k Hk) as [e ->]. by eexists.
      * split; [by intros [? ?]|done].
    + intros f Hf. rewrite Hd, decide_True by done.
      by apply fieldPasses_entry, Hall'.
  - intros f0 (Hin & Hfail & Hothers)%failing_fields.
    destruct (fieldFails_report p f0 Hfail) as (r & Hr & Hinv & Hrep & Hent).
    exists r. split; [done|]. split; [done|].
    assert (errors (finalState (onSubmit p)) = [(f0, resultMessage r)]) as Herr.
    { rewrite He. apply (omap_single _ _ f0); [apply fieldNames_NoDup|done..|].
      intros f Hf Hne. by apply fieldPasses_report, Hothers. }
    split; [done|]. split; [|split].
    + rewrite onSubmit_outcome, Hv, Herr.
      assert (forallb (fieldPasses p) fieldNames = false) as ->; [|done].
      apply not_true_is_false. intros Hall.
      rewrite forallb_fieldPasses in Hall.
      rewrite (Hall f0 Hin) in Hfail. done.
    + by rewrite Hd, decide_True.
    + intros f Hf Hne. rewrite Hd, decide_True by done.
      by apply fieldPasses_entry, Hothers.
Qed.

Lemma submit_revalidates_all_witness :
  errors (finalState (onSubmit formWithBadAge))
    = [(lit "age", Some (lit "Age must be between 13 and 120 years"))]
  ∧ errors (finalState (onSubmit filledForm)) = [].
Proof.
  split.
  - destruct (submit_revalidates_all formWithBadAge)
      as (_ & _ & _ & _ & Hone).
    + apply (bool_decide_unpack _). vm_compute. exact I.
    + destruct (Hone (lit "age")) as (r & Hr & _ & Herr & _).
      * vm_compute. reflexivity.
      * rewrite Herr. vm_compute in Hr. by injection Hr as <-.
  - destruct (submit_revalidates_all filledForm)
      as (_ & _ & _ & Hall & _).
    + apply (bool_decide_unpack _). vm_compute. exact I.
    + apply Hall. vm_compute. reflexivity.
Defined.

(** The end-to-end example: a filled form that showed an error before
    submits with all eight names in the payload. *)
Example filledForm_submits :
  outcome (onSubmit filledForm)
    = SuccessfulSubmission (formData (finalState (onSubmit filledForm)))
  ∧ dom (formData (finalState (onSubmit filledForm)))
    = list_to_set fieldNames.
Proof.
  destruct (onSubmit_collects filledForm) as (_ & Hd & _).
  split; [vm_compute; reflexivity|].
  apply set_eq. intros k.
  rewrite elem_of_dom, Hd, elem_of_list_to_set.
  case_decide as Hk; [|split; [by intros [? ?]|done]].
  split; [done|]. intros _. unfold fieldNames in Hk.
  repeat (apply elem_of_cons in Hk as [->|Hk]; [vm_compute; by eexists|]).
  by apply elem_of_nil in Hk.
Qed.

End FormClaims.

(** ** Properties of the disclosure groups *)

Module DisclosureFacts.
Import JS Disclosure.

Lemma lookup_clearOthers cls keep (d : list node) (j : nat) :
  clearOthers cls keep d !! j
  = (λ n, if cls n && negb (j =? keep)%nat then setActive false n else n)
      <$> d !! j.
Proof. unfold clearOthers. apply list_lookup_imap. Qed.

Lemma lookup_clearAll cls (d : list node) (j : nat) :
  clearAll cls d !! j
  = (λ n, if cls n then setActive false n else n) <$> d !! j.
Proof. unfold clearAll. apply list_lookup_fmap. Qed.

(** A found element is in the document. *)
Lemma queryDataAnswer_Some (d : list node) faqId answer :
  queryDataAnswer d faqId = Some answer → is_Some (d !! answer).
Proof.
  unfold queryDataAnswer. intros ([i n] & H & [= <-])%fmap_Some.
  apply list_find_Some in H as (Hn & _). by eexists.
Qed.

(** The node at a position after a click of the accordion that finds its
    answer and its icon. *)
Lemma lookup_faqClick (d : list node) q answer icon (j : nat) :
  queryDataAnswer d (toStringOr (dataFaq q)) = Some answer →
  queryIcon d q = Some icon →
  faqClick d q !! j
  = (λ n,
       let isActive := from_option active false (d !! answer) in
       let n1 := if isFaqAnswer n && negb (j =? answer)%nat
                 then setActive false n else n in
       let n2 := if isFaqIcon n1 && negb (j =? icon)%nat
                 then setActive false n1 else n1 in
       let n3 := if decide (answer = j)
                 then setActive (negb isActive) n2 else n2 in
       if decide (icon = j) then setActive (negb isActive) n3 else n3)
      <$> d !! j.
Proof.
  intros Ha Hi. unfold faqClick. rewrite Ha, Hi. cbv zeta.
  destruct (from_option active false (d !! answer)); cbn [negb];
    destruct (decide (icon = j)) as [->|Hij];
    destruct (decide (answer = j)) as [->|Haj];
    repeat (rewrite list_lookup_alter_eq
            || rewrite list_lookup_alter_ne by done);
    rewrite !lookup_clearOthers;
    destruct (d !! j) as [n|]; done.
Qed.

Lemma getElementById_ids (d1 d2 : list node) id :
  nodeId <$> d1 = nodeId <$> d2 →
  getElementById d1 id = getElementById d2 id.
Proof.
  intros H. unfold getElementById.
  assert (∀ d : list node,
    fst <$> list_find (λ n, nodeId n = Some id) d
    = fst <$> list_find (λ o, o = Some id) (nodeId <$> d)) as Hd.
  { intros d. rewrite list_find_fmap.
    destruct (list_find ((λ o, o = Some id) ∘ nodeId) d) as [[i n]|] eqn:E;
      unfold compose in E; rewrite E; done. }
  by rewrite !Hd, H.
Qed.

Lemma tabClick_ids (d : list node) pos :
  nodeId <$> alter (setActive true) pos
               (clearAll isTabPanel (clearAll isTabBtn d))
  = nodeId <$> d.
Proof.
  apply list_eq. intros j.
  rewrite !list_lookup_fmap, list_lookup_alter.
  case_decide; subst; rewrite !lookup_clearAll;
    destruct (d !! j) as [n|]; simpl; try done;
    destruct (isTabBtn n); simpl; destruct (isTabPanel n); done.
Qed.

(** The node at a position after a click on a tab button. *)
Lemma lookup_tabClick (d : list node) b (j : nat) :
  tabClick d b !! j
  = (λ n,
       let n1 := if isTabBtn n then setActive false n else n in
       let n2 := if isTabPanel n1 then setActive false n1 else n1 in
       let n3 := if decide (position b = j) then setActive true n2 else n2 in
       if decide (getElementById d (toStringOr (dataTab b)) = Some j)
       then setActive true n3 else n3)
      <$> d !! j.
Proof.
  unfold tabClick.
  rewrite (getElementById_ids _ d) by apply tabClick_ids.
  destruct (getElementById d (toStringOr (dataTab b))) as [t|].
  - destruct (decide (Some t = Some j)) as [[= ->]|Htj];
      destruct (decide (position b = j)) as [Hbj|Hbj];
      try rewrite Hbj;
      repeat (rewrite list_lookup_alter_eq
              || rewrite list_lookup_alter_ne by congruence);
      rewrite !lookup_clearAll; destruct (d !! j) as [n|]; done.
  - destruct (decide (None = Some j)) as [?|_]; [done|].
    destruct (decide (position b = j)) as [Hbj|Hbj];
      try rewrite Hbj;
      repeat (rewrite list_lookup_alter_eq
              || rewrite list_lookup_alter_ne by congruence);
      rewrite !lookup_clearAll; destruct (d !! j) as [n|]; done.
Qed.

End DisclosureFacts.

(** ** The claim about the disclosure groups *)

Module DisclosureClaims.
Import JS Disclosure DisclosureFacts DisclosureSamples.

(** After a click of the accordion only the clicked answer can be
    active. *)
Lemma faqClick_only_answer (d : list node) q answer icon (j : nat) :
  queryDataAnswer d (toStringOr (dataFaq q)) = Some answer →
  queryIcon d q = Some icon →
  icon = answer ∨ from_option isFaqAnswer false (d !! icon) = false →
  activeIn isFaqAnswer (faqClick d q) j → j = answer.
Proof.
  intros Ha Hi Hicon (n' & Hn' & Hcls & Hact).
  rewrite (lookup_faqClick d q answer icon j Ha Hi) in Hn'.
  destruct (d !! j) as [n|] eqn:Hj; [|done].
  injection Hn' as <-.
  destruct (decide (answer = j)) as [|Haj]; [done|]. exfalso.
  assert ((j =? answer)%nat = false) as Hjb by (apply Nat.eqb_neq; done).
  cbv zeta in Hcls, Hact. rewrite Hjb in Hcls, Hact.
  destruct (decide (icon = j)) as [->|Hij].
  - destruct Hicon as [->|Hicon]; [done|].
    rewrite Hj in Hicon. simpl in Hicon.
    rewrite Hicon in Hcls. simpl in Hcls.
    destruct (isFaqIcon n && negb (j =? j)%nat); simpl in Hcls; congruence.
  - destruct (isFaqAnswer n) eqn:Hfa; simpl in Hcls, Hact.
    + destruct (isFaqIcon n && negb (j =? icon)%nat); simpl in Hact;
        congruence.
    + destruct (isFaqIcon n && negb (j =? icon)%nat); simpl in Hcls;
        congruence.
Qed.

(** After a click on a tab button only that button can be an active
    button. *)
Lemma tabClick_only_button (d : list node) b (j : nat) :
  targetApart d b →
  activeIn isTabBtn (tabClick d b) j → j = position b.
Proof.
  intros Hapart (n' & Hn' & Hcls & Hact).
  rewrite lookup_tabClick in Hn'.
  destruct (d !! j) as [n|] eqn:Hj; [|done].
  injection Hn' as <-.
  destruct (decide (position b = j)) as [|Hbj]; [done|]. exfalso.
  cbv zeta in Hcls, Hact.
  destruct (decide (getElementById d (toStringOr (dataTab b)) = Some j))
    as [Ht|Ht].
  - unfold targetApart in Hapart. rewrite Ht in Hapart.
    destruct Hapart as [->|Hapart]; [done|].
    rewrite Hj in Hapart. simpl in Hapart.
    rewrite Hapart in Hcls. simpl in Hcls.
    destruct (isTabPanel n); simpl in Hcls; congruence.
  - destruct (isTabBtn n) eqn:Hb; simpl in Hcls, Hact.
    + destruct (isTabPanel n); simpl in Hact; congruence.
    + destruct (isTabPanel n); simpl in Hcls; congruence.
Qed.

(** C10. A click on a question whose identifier is plain and whose answer
    and icon are found (the icon not being another answer) leaves at most
    one answer active: every other answer is inactive and the clicked one
    is toggled.  A click on a tab button (whose target is not another
    button) leaves at most one button active, and the clicked button is
    active whatever it was before. *)
Theorem one_active_after_click (d : list node) (q : question)
    (answer icon : nat) (t : list node) (b : tabButton) :
  plainIdentifier (toStringOr (dataFaq q)) = true →
  queryDataAnswer d (toStringOr (dataFaq q)) = Some answer →
  queryIcon d q = Some icon →
  icon = answer ∨ from_option isFaqAnswer false (d !! icon) = false →
  from_option isTabBtn false (t !! position b) = true →
  targetApart t b →
  atMostOneActive isFaqAnswer (faqClick d q)
  ∧ (∀ j, j ≠ answer → ¬ activeIn isFaqAnswer (faqClick d q) j)
  ∧ active <$> (faqClick d q !! answer)
    = (λ n, negb (active n)) <$> (d !! answer)
  ∧ atMostOneActive isTabBtn (tabClick t b)
  ∧ activeIn isTabBtn (tabClick t b) (position b).
Proof.
  intros _ Ha Hi Hicon Hbtn Hapart.
  split; [|split; [|split; [|split]]].
  - intros j k Hj Hk.
    rewrite (faqClick_only_answer d q answer icon j), 
            (faqClick_only_answer d q answer icon k); done.
  - intros j Hne Hj. apply Hne. by eapply faqClick_only_answer.
  - rewrite (lookup_faqClick d q answer icon answer Ha Hi).
    destruct (queryDataAnswer_Some _ _ _ Ha) as [n Hn]. rewrite Hn. simpl.
    destruct (decide (answer = answer)); [|done].
    by destruct (decide (icon = answer)).
  - intros j k Hj Hk.
    rewrite (tabClick_only_button t b j), (tabClick_only_button t b k); done.
  - unfold activeIn. rewrite lookup_tabClick.
    destruct (t !! position b) as [n|]; [|done]. simpl in Hbtn.
    eexists. split; [reflexivity|]. cbv zeta.
    destruct (decide (position b = position b)); [|done].
    rewrite Hbtn. simpl.
    by destruct
         (decide (getElementById t (toStringOr (dataTab b))
                  = Some (position b))), (isTabPanel n).
Qed.

Lemma one_active_after_click_witness :
  atMostOneActive isFaqAnswer (faqClick faqDocument secondQuestion)
  ∧ active <$> (faqClick faqDocument secondQuestion !! 2) = Some true
  ∧ atMostOneActive isTabBtn (tabClick tabDocument secondTab)
  ∧ activeIn isTabBtn (tabClick tabDocument secondTab) 1.
Proof.
  destruct (one_active_after_click faqDocument secondQuestion 2 3
              tabDocument secondTab) as (H1 & _ & H3 & H4 & H5).
  - vm_compute. reflexivity.
  - vm_compute. reflexivity.
  - vm_compute. reflexivity.
  - right. vm_compute. reflexivity.
  - vm_compute. reflexivity.
  - vm_compute. right. reflexivity.
  - split; [exact H1|]. split; [exact H3|]. split; [exact H4|exact H5].
Defined.

(** Not after any click: the listener of a question returns before it
    touches a class when the question has no icon, so a click on such a
    question, its answer closed, does not open the answer. *)
Lemma click_without_icon_counterexample :
  ¬ (∀ (d : list node) (q : question) (answer : nat),
       queryDataAnswer d (toStringOr (dataFaq q)) = Some answer →
       atMostOneActive isFaqAnswer (faqClick d q)
       ∧ active <$> (faqClick d q !! answer)
         = (λ n, negb (active n)) <$> (d !! answer)).
Proof.
  intros H.
  destruct (H [answerNode "1" false] (Question (Some (lit "1")) []) 0)
    as [_ Htoggled].
  - vm_compute. reflexivity.
  - vm_compute in Htoggled. discriminate Htoggled.
Qed.

(** The documents after the sample clicks. *)
Example faqDocument_after_click :
  active <$> faqClick faqDocument secondQuestion = [false; false; true; true]
  ∧ active <$> faqClick (faqClick faqDocument secondQuestion) secondQuestion
    = [false; false; false; false].
Proof. split; vm_compute; reflexivity. Qed.

Example tabDocument_after_click :
  active <$> tabClick tabDocument secondTab = [false; true; false; true]
  ∧ tabClick (tabClick tabDocument secondTab) secondTab
    = tabClick tabDocument secondTab.
Proof. split; vm_compute; reflexivity. Qed.

(** A click on a question without answer or without icon changes
    nothing. *)
Lemma faqClick_unresolved (d : list node) q :
  queryDataAnswer d (toStringOr (dataFaq q)) = None ∨ queryIcon d q = None →
  faqClick d q = d.
Proof.
  unfold faqClick. intros [->| ->]; [done|].
  by destruct (queryDataAnswer d (toStringOr (dataFaq q))).
Qed.

(** So the accordion keeps "at most one answer active" under every click,
    found or not. *)
Lemma faqClick_preserves (d : list node) q :
  (∀ answer icon,
     queryDataAnswer d (toStringOr (dataFaq q)) = Some answer →
     queryIcon d q = Some icon →
     icon = answer ∨ from_option isFaqAnswer false (d !! icon) = false) →
  atMostOneActive isFaqAnswer d →
  atMostOneActive isFaqAnswer (faqClick d q).
Proof.
  intros Hicon Hinv.
  destruct (queryDataAnswer d (toStringOr (dataFaq q))) as [answer|] eqn:Ha;
    [|by rewrite faqClick_unresolved by (by left; rewrite Ha)].
  destruct (queryIcon d q) as [icon|] eqn:Hi;
    [|by rewrite faqClick_unresolved by (by right)].
  intros j k Hj Hk.
  rewrite (faqClick_only_answer d q answer icon j),
          (faqClick_only_answer d q answer icon k); auto.
Qed.

(** The clicked button not being a panel itself, at most one panel is
    active after a click on a tab button, the one the button names. *)
Lemma tabClick_one_panel (d : list node) b :
  from_option isTabPanel false (d !! position b) = false →
  atMostOneActive isTabPanel (tabClick d b).
Proof.
  intros Hpos.
  assert (∀ j, activeIn isTabPanel (tabClick d b) j →
               getElementById d (toStringOr (dataTab b)) = Some j) as Honly.
  { intros j (n' & Hn' & Hcls & Hact).
    rewrite lookup_tabClick in Hn'.
    destruct (d !! j) as [n|] eqn:Hj; [|done].
    injection Hn' as <-. cbv zeta in Hcls, Hact.
    destruct (decide (getElementById d (toStringOr (dataTab b)) = Some j))
      as [|Ht]; [done|]. exfalso.
    destruct (decide (position b = j)) as [Hbj|Hbj].
    - rewrite Hbj, Hj in Hpos. simpl in Hpos, Hcls.
      destruct (isTabBtn n); simpl in Hcls; rewrite Hpos in Hcls;
        simpl in Hcls; congruence.
    - destruct (isTabBtn n); simpl in Hcls, Hact;
        destruct (isTabPanel n) eqn:Hp; simpl in Hcls, Hact; congruence. }
  intros j k Hj%Honly Hk%Honly. congruence.
Qed.

End DisclosureClaims.

(** ** What the matcher accepts *)

Module MatcherFacts.
Import JS RegExp RegExpFacts Classes Continuations.

Lemma atEnd_true prev s : atEnd prev s = true ↔ s = [].
Proof. unfold atEnd. destruct s; simpl; split; congruence. Qed.

Lemma times_class_complete cl n prev s1 s2 k :
  length s1 = n →
  Forall (λ c, inClass cl c = true) s1 →
  (∀ prev', k prev' s2 = true) →
  times n (run (Class cl)) prev (s1 ++ s2) k = true.
Proof.
  intros <- Hall Hk. revert prev.
  induction Hall as [|c s1 Hc Hall IH]; intros prev; simpl; [done|].
  by rewrite Hc, IH.
Qed.

Lemma many_class_complete cl fuel prev s1 s2 k :
  length s1 ≤ fuel →
  Forall (λ c, inClass cl c = true) s1 →
  (∀ prev', k prev' s2 = true) →
  many fuel (run (Class cl)) prev (s1 ++ s2) k = true.
Proof.
  intros Hfuel Hall Hk. revert fuel prev Hfuel.
  induction Hall as [|c s1 Hc Hall IH]; intros fuel prev Hfuel.
  - destruct fuel; simpl; by rewrite Hk.
  - destruct fuel as [|fuel]; [simpl in Hfuel; lia|].
    simpl. rewrite Hc. simpl.
    rewrite IH by (simpl in Hfuel; lia).
    assert ((length (s1 ++ s2) <? S (length (s1 ++ s2)))%nat = true) as ->
      by (apply Nat.ltb_lt; lia).
    by rewrite orb_true_r.
Qed.

Lemma run_atLeast_class_complete cl n prev s1 s2 k :
  n ≤ length s1 →
  Forall (λ c, inClass cl c = true) s1 →
  (∀ prev', k prev' s2 = true) →
  run (atLeast n (Class cl)) prev (s1 ++ s2) k = true.
Proof.
  intros Hn Hall Hk. simpl.
  rewrite <- (take_drop n s1), <- app_assoc.
  apply times_class_complete.
  - rewrite length_take. lia.
  - by apply Forall_take.
  - intros prev'. apply many_class_complete; [|by apply Forall_drop|done].
    rewrite length_app. lia.
Qed.

(** A class repeated at least [n] times up to the end of the input. *)
Lemma run_atLeast_class_end cl n prev s :
  run (atLeast n (Class cl)) prev s atEnd = true
  ↔ n ≤ length s ∧ Forall (λ c, inClass cl c = true) s.
Proof.
  split.
  - intros (s1 & s2 & prev' & -> & Hlen & Hall & Hk)%run_atLeast_class.
    apply atEnd_true in Hk as ->. by rewrite app_nil_r.
  - intros [Hlen Hall]. rewrite <- (app_nil_r s).
    apply run_atLeast_class_complete; [done..|].
    intros prev'. by apply atEnd_true.
Qed.

Lemma run_chr a prev s k :
  run (chr a) prev s k = true
  ↔ ∃ s', s = code a :: s' ∧ k (Some (code a)) s' = true.
Proof.
  unfold chr, set, one. simpl. destruct s as [|c s'].
  - split; [done|]. by intros (? & ? & _).
  - unfold inClass, inRanges. simpl.
    rewrite range_single, orb_false_r, andb_true_iff. split.
    + intros [->%N.eqb_eq Hk]. eauto.
    + intros (s'' & [= -> ->] & Hk). by rewrite N.eqb_refl.
Qed.

(** [(?=.*[...])] looks for a member of the class on the first line of the
    rest of the input, when the class has no line terminator. *)
Lemma inClass_dot c : inClass (CharClass true [(10, 10); (13, 13); (8232, 8233)]%N) c
                      = negb (isLineTerminator c).
Proof.
  unfold inClass, inRanges, isLineTerminator. simpl.
  rewrite !range_single, orb_false_r. f_equal.
  assert (((8232 <=? c) && (c <=? 8233))%N
          = ((c =? 8232) || (c =? 8233))%N) as ->.
  { destruct (N.eqb_spec c 8232) as [->|]; [done|].
    destruct (N.eqb_spec c 8233) as [->|]; [done|]. simpl.
    apply andb_false_iff.
    destruct (N.leb_spec 8232 c); [right|left; done].
    apply N.leb_gt. lia. }
  by rewrite !orb_assoc.
Qed.

Lemma existsb_firstLine (f : N → bool) s :
  (∀ c, f c = true → isLineTerminator c = false) →
  existsb f (firstLine s) = true
  ↔ ∃ s1 c s2, s = s1 ++ c :: s2 ∧ f c = true
               ∧ Forall (λ c', isLineTerminator c' = false) s1.
Proof.
  intros Hf. unfold firstLine. induction s as [|x s IH]; simpl.
  - split; [done|]. intros (s1 & c & s2 & H & _). by destruct s1.
  - destruct (isLineTerminator x) eqn:Hx; simpl.
    + split; [done|]. intros (s1 & c & s2 & H & Hc & Hall).
      destruct s1 as [|y s1]; simplify_eq/=.
      * by rewrite (Hf _ Hc) in Hx.
      * apply Forall_cons in Hall as [Hy _]. congruence.
    + rewrite orb_true_iff, IH. split.
      * intros [Hfx|(s1 & c & s2 & -> & Hc & Hall)].
        -- by exists [], x, s.
        -- exists (x :: s1), c, s2. repeat split; [done|by constructor].
      * intros (s1 & c & s2 & H & Hc & Hall).
        destruct s1 as [|y s1]; simplify_eq/=.
        -- by left.
        -- apply Forall_cons in Hall as [_ Hall]. right.
           by exists s1, c, s2.
Qed.

Lemma run_lookahead_class rs prev s k :
  (∀ c, inRanges rs c = true → isLineTerminator c = false) →
  run (LookAhead (Seq (star dot) (set rs))) prev s k
  = existsb (inRanges rs) (firstLine s) && k prev s.
Proof.
  intros Hrs.
  change (run (LookAhead (Seq (star dot) (set rs))) prev s k)
    with (run (Seq (star dot) (set rs)) prev s (λ _ _, true) && k prev s).
  f_equal.
  apply eq_true_iff_eq. rewrite (existsb_firstLine _ _ Hrs).
  unfold star, dot, set.
  change (run (Seq ?a ?b) ?p ?s0 ?k0)
    with (run a p s0 (λ prev' s', run b prev' s' k0)).
  change (run (Repeat ?r 0 None) ?p ?s0 ?k0)
    with (many (length s0) (run r) p s0 k0).
  split.
  - intros (s1 & s2 & prev' & -> & Hall & Hk)%many_class.
    destruct s2 as [|c s2]; [done|].
    apply andb_true_iff in Hk as [Hc _].
    exists s1, c, s2. split; [done|]. split; [done|].
    eapply Forall_impl; [exact Hall|]. intros x Hx. cbv beta in Hx.
    rewrite inClass_dot in Hx. by destruct (isLineTerminator x).
  - intros (s1 & c & s2 & -> & Hc & Hall).
    apply many_class_complete.
    + rewrite length_app. lia.
    + eapply Forall_impl; [exact Hall|]. intros x Hx. cbv beta in Hx.
      rewrite inClass_dot. by rewrite Hx.
    + intros prev'.
      change (inClass (CharClass false rs) c && true = true).
      unfold inClass. cbn [negated ranges xorb]. by rewrite Hc.
Qed.

End MatcherFacts.

(** ** The classes of the patterns as predicates *)

Module ClassFacts.
Import JS RegExp RegExpFacts Classes Validation.

Local Open Scope char_scope.

(** Both sides are unions of intervals of code units. *)
Ltac intervals :=
  apply eq_true_iff_eq;
  unfold inRanges, isNameChar, isPasswordChar, isEmailLocalChar,
    isEmailDomainChar, isLetter, isLower, isUpper, isSpecial, isDigit,
    alnum, letters, digit, specials, rng, one, code;
  cbn [existsb app N_of_ascii N_of_digits];
  rewrite ?orb_true_iff, ?andb_true_iff, ?orb_true_iff, ?andb_true_iff,
    ?N.leb_le, ?N.eqb_eq;
  lia.

Lemma inRanges_lower c : inRanges [rng "a" "z"] c = isLower c.
Proof. intervals. Qed.

Lemma inRanges_upper c : inRanges [rng "A" "Z"] c = isUpper c.
Proof. intervals. Qed.

Lemma inRanges_digit c : inRanges digit c = isDigit c.
Proof. intervals. Qed.

Lemma inRanges_specials c : inRanges specials c = isSpecial c.
Proof. intervals. Qed.

Lemma inRanges_letters c : inRanges letters c = isLetter c.
Proof. intervals. Qed.

Lemma inRanges_password c :
  inRanges ([rng "A" "Z"; rng "a" "z"] ++ digit ++ specials) c
  = isPasswordChar c.
Proof. intervals. Qed.

Lemma inRanges_emailLocal c :
  inRanges (alnum ++ [one "."; one "_"; one "%"; one "+"; one "-"]) c
  = isEmailLocalChar c.
Proof. intervals. Qed.

Lemma inRanges_emailDomain c :
  inRanges (alnum ++ [one "."; one "-"]) c = isEmailDomainChar c.
Proof. intervals. Qed.

Lemma inRanges_name c :
  inRanges (letters ++ space ++ [one "'"; one "-"]) c = isNameChar c.
Proof.
  rewrite !inRanges_app, space_isWhiteSpace, inRanges_letters.
  unfold isNameChar. rewrite <- !orb_assoc. do 2 f_equal. intervals.
Qed.

End ClassFacts.

(** ** What each field accepts *)

Module FieldShapes.
Import JS RegExp Obj Dom Validation Form Spec Classes Continuations.
Import JSFacts ValidationFacts RegExpFacts MatcherFacts ClassFacts.

Local Open Scope char_scope.

(** The verdict of a declared field as one boolean. *)
Lemma isValid_validateField p fieldName rules v :
  get validationRules fieldName = Own rules →
  isValid (validateField p fieldName v)
  = if blank v then negb (required rules)
    else negb (tooShort rules (trim v)) && negb (tooLong rules (trim v))
         && negb (patternFails rules (trim v))
         && negb (outOfRange rules (trim v))
         && negb (bool_decide (fieldName = lit "confirmPassword")
                  && negb (bool_decide (trim v = passwordValue p))).
Proof.
  intros Hown. unfold validateField. rewrite (rulesOf_own _ _ Hown).
  destruct (blank v); [by destruct (required rules)|].
  rewrite andb_false_r.
  destruct (tooShort rules (trim v)); [done|].
  destruct (tooLong rules (trim v)); [done|].
  destruct (patternFails rules (trim v)); [done|].
  destruct (outOfRange rules (trim v)); [done|].
  by destruct (bool_decide (fieldName = lit "confirmPassword")
               && negb (bool_decide (trim v = passwordValue p))).
Qed.

Lemma rule_keys : validationRules.*1 = fieldNames.
Proof. reflexivity. Qed.

(** A name that is not one of the eight fields is always valid, be it
    unknown to the rule table or the name of an inherited member such as
    [toString]. *)
Theorem undeclared_field_valid p (fieldName v : jsstring) :
  fieldName ∉ fieldNames →
  validateField p fieldName v = valid.
Proof.
  intros Hnot. unfold validateField, rulesOf, get.
  destruct (assoc validationRules fieldName) as [r|] eqn:E.
  { destruct Hnot. rewrite <- rule_keys.
    apply list_elem_of_fmap. exists (fieldName, r).
    split; [done|]. by apply assoc_elem_of. }
  case_decide; [|done].
  cbn [required noAttributes andb].
  destruct (blank v); [done|].
  unfold tooShort, tooLong, patternFails, outOfRange.
  cbn [minLength maxLength pattern min max noAttributes isSome orb].
  rewrite bool_decide_eq_false_2; [done|].
  intros ->. apply Hnot. apply (bool_decide_unpack _). vm_compute. exact I.
Qed.

Lemma undeclared_field_valid_witness :
  validateField ∅ (lit "toString") (lit "anything") = valid
  ∧ validateField ∅ (lit "nickname") [] = valid.
Proof.
  split; apply undeclared_field_valid; apply (bool_decide_unpack _);
    vm_compute; exact I.
Defined.

Lemma message_rule :
  get validationRules (lit "message")
  = Own (Rule true (Some 10) (Some 500) None None None
           (Some (lit "Message must be between 10 and 500 characters"))).
Proof. vm_compute. reflexivity. Qed.

(** The message field is valid exactly when its trimmed text has 10 to 500
    code units; white space around the text does not count. *)
Theorem message_valid_iff p v :
  isValid (validateField p (lit "message") v) = true
  ↔ 10 ≤ length (trim v) ≤ 500.
Proof.
  rewrite (isValid_validateField _ _ _ _ message_rule).
  destruct (blank v) eqn:Hb.
  - apply blank_trim_nil in Hb. rewrite Hb. simpl. split; [done|lia].
  - unfold tooShort, tooLong, patternFails, outOfRange.
    cbn [minLength maxLength pattern min max isSome orb negb andb].
    rewrite bool_decide_eq_false_2 by (vm_compute; discriminate).
    cbn [andb negb]. rewrite !andb_true_r.
    destruct (Nat.ltb_spec (length (trim v)) 10),
             (Nat.ltb_spec 500 (length (trim v))); simpl; split; lia || done.
Qed.

Lemma fullName_rule :
  get validationRules (lit "fullName")
  = Own (Rule true (Some 2) (Some 50) (Some fullNamePattern) None None
           (Some (lit "Name must be 2-50 characters and contain only letters, spaces, hyphens, and apostrophes"))).
Proof. vm_compute. reflexivity. Qed.

Lemma test_fullNamePattern t :
  test fullNamePattern t = true
  ↔ 1 ≤ length t ∧ Forall (λ c, isNameChar c = true) t.
Proof.
  unfold fullNamePattern, seqs, set, plus. rewrite test_bol.
  change (run (Seq ?a Eol) ?p ?s0 ?k0) with (run a p s0 atEnd).
  change (Repeat ?r 1 None) with (atLeast 1 r).
  rewrite run_atLeast_class_end.
  assert (∀ c, inClass (CharClass false
                          (letters ++ space ++ [one "'"; one "-"])) c
               = isNameChar c) as Hcls by (intros c; apply inRanges_name).
  split; intros [Hlen Hall]; (split; [done|]);
    (eapply Forall_impl; [exact Hall|]); intros c Hc; cbv beta in *;
    by rewrite ?Hcls in *.
Qed.

(** The name field is valid exactly when its trimmed text has 2 to 50
    code units, each a letter, white space, an apostrophe or a hyphen. *)
Theorem fullName_valid_iff p v :
  isValid (validateField p (lit "fullName") v) = true
  ↔ 2 ≤ length (trim v) ≤ 50
    ∧ Forall (λ c, isNameChar c = true) (trim v).
Proof.
  rewrite (isValid_validateField _ _ _ _ fullName_rule).
  destruct (blank v) eqn:Hb.
  - apply blank_trim_nil in Hb. rewrite Hb. simpl.
    split; [done|]. intros [? _]. lia.
  - unfold tooShort, tooLong, patternFails, outOfRange.
    cbn [minLength maxLength pattern min max isSome orb negb andb].
    rewrite bool_decide_eq_false_2 by (vm_compute; discriminate).
    change (2 =? 0)%nat with false. change (50 =? 0)%nat with false.
    cbn [andb negb]. rewrite !andb_true_r, negb_involutive.
    rewrite !andb_true_iff, !negb_true_iff, !Nat.ltb_ge, test_fullNamePattern.
    split; [intros [[? ?] [? ?]]|intros [[? ?] ?]]; repeat split; (done || lia).
Qed.

Lemma run_opt_class_iff cl prev s k :
  run (opt (Class cl)) prev s k = true
  ↔ k prev s = true
    ∨ ∃ c s', s = c :: s' ∧ inClass cl c = true ∧ k (Some c) s' = true.
Proof.
  split; [apply run_opt_class|].
  simpl. rewrite orb_true_iff.
  intros [H|(c & s' & -> & Hc & Hk)]; [by left|right].
  by rewrite Hc, Hk.
Qed.

Lemma test_phonePattern t :
  test phonePattern t = true
  ↔ ∃ body, (t = body ∨ t = code "+" :: body)
            ∧ Forall (λ c, isPhoneChar c = true) body
            ∧ 10 ≤ length body.
Proof.
  split; [apply ValidationClaims.phonePattern_shape|].
  intros (body & Ht & Hall & Hlen).
  assert (∀ prev, run (atLeast 10 (Class (CharClass false phoneClass)))
                    prev body atEnd = true) as Hbody.
  { intros prev. apply run_atLeast_class_end. split; [done|].
    eapply Forall_impl; [exact Hall|]. intros c Hc. cbv beta in *.
    by rewrite ValidationClaims.inClass_phone. }
  unfold phonePattern, seqs, set. rewrite test_bol.
  rewrite !ValidationClaims.run_seq.
  destruct Ht as [->| ->].
  - apply run_opt_class_iff. left.
    apply run_opt_class_iff. left. apply Hbody.
  - apply run_opt_class_iff. right. exists (code "+"), body.
    split; [done|]. split; [by vm_compute|].
    apply run_opt_class_iff. left. apply Hbody.
Qed.

(** The phone field is valid exactly when it is blank or its trimmed text
    is an optional plus followed by at least 10 characters, each a digit,
    white space, a hyphen or a parenthesis. *)
Theorem phone_valid_iff p v :
  isValid (validateField p (lit "phone") v) = true
  ↔ trim v = []
    ∨ ∃ body, (trim v = body ∨ trim v = code "+" :: body)
              ∧ Forall (λ c, isPhoneChar c = true) body
              ∧ 10 ≤ length body.
Proof.
  rewrite ValidationClaims.validateField_phone, <- test_phonePattern.
  destruct (blank v) eqn:Hb.
  - apply blank_trim_nil in Hb. split; [by left|done].
  - apply blank_false in Hb.
    destruct (test phonePattern (trim v)); simpl.
    + split; [by right|done].
    + split; [done|]. by intros [?|?].
Qed.

Lemma existsb_eq {A} (f g : A → bool) l :
  (∀ x, f x = g x) → existsb f l = existsb g l.
Proof. intros H. induction l as [|x l IH]; simpl; [done|]. by rewrite H, IH. Qed.

(** None of the four classes the password must contain has a line
    terminator. *)
Lemma no_terminator_in (f : N → bool) c :
  f = isLower ∨ f = isUpper ∨ f = isDigit ∨ f = isSpecial →
  f c = true → isLineTerminator c = false.
Proof.
  intros Hf Hc. apply not_true_is_false. revert Hc.
  destruct Hf as [->|[->|[->| ->]]];
    unfold isLower, isUpper, isDigit, isSpecial, isLineTerminator, code;
    cbn [N_of_ascii N_of_digits];
    rewrite ?orb_true_iff, ?andb_true_iff, ?N.leb_le, ?N.eqb_eq; lia.
Qed.

Lemma test_passwordPattern t :
  test passwordPattern t
  = existsb isLower (firstLine t) && existsb isUpper (firstLine t)
    && existsb isDigit (firstLine t) && existsb isSpecial (firstLine t)
    && from_option isPasswordChar false (head t).
Proof.
  unfold passwordPattern, seqs. rewrite test_bol.
  do 4 (rewrite ValidationClaims.run_seq;
        rewrite run_lookahead_class
          by (intros c;
              rewrite ?inRanges_lower, ?inRanges_upper, ?inRanges_digit,
                ?inRanges_specials;
              apply no_terminator_in; auto);
        cbv beta).
  rewrite (existsb_eq (inRanges [rng "a" "z"]) isLower)
    by apply inRanges_lower.
  rewrite (existsb_eq (inRanges [rng "A" "Z"]) isUpper)
    by apply inRanges_upper.
  rewrite (existsb_eq (inRanges digit) isDigit) by apply inRanges_digit.
  rewrite (existsb_eq (inRanges specials) isSpecial)
    by apply inRanges_specials.
  rewrite !andb_assoc. f_equal.
  destruct t as [|c t]; [done|]. unfold set. simpl run. simpl head.
  cbn [from_option]. rewrite andb_true_r. apply inRanges_password.
Qed.

Lemma password_rule :
  get validationRules (lit "password")
  = Own (Rule true (Some 8) None (Some passwordPattern) None None
           (Some (lit "Password must be at least 8 characters with uppercase, lowercase, number, and special character (@$!%*?&)"))).
Proof. vm_compute. reflexivity. Qed.

(** The password field is valid exactly when its trimmed text has at
    least 8 code units, starts with a letter, digit or one of [@$!%*?&],
    and has a lower-case letter, an upper-case letter, a digit and one of
    [@$!%*?&] before its first line break.  Nothing is asked of the
    characters after the first. *)
Theorem password_valid_iff p v :
  isValid (validateField p (lit "password") v)
  = (8 <=? length (trim v))%nat
    && existsb isLower (firstLine (trim v))
    && existsb isUpper (firstLine (trim v))
    && existsb isDigit (firstLine (trim v))
    && existsb isSpecial (firstLine (trim v))
    && from_option isPasswordChar false (head (trim v)).
Proof.
  rewrite (isValid_validateField _ _ _ _ password_rule).
  destruct (blank v) eqn:Hb.
  - apply blank_trim_nil in Hb. by rewrite Hb.
  - unfold tooShort, tooLong, patternFails, outOfRange.
    cbn [minLength maxLength pattern min max isSome orb negb andb].
    rewrite bool_decide_eq_false_2 by (vm_compute; discriminate).
    change (8 =? 0)%nat with false.
    cbn [andb negb]. rewrite !andb_true_r, negb_involutive.
    rewrite test_passwordPattern, !andb_assoc. do 5 f_equal.
    destruct (Nat.leb_spec 8 (length (trim v))),
             (Nat.ltb_spec (length (trim v)) 8); simpl; done || lia.
Qed.

Lemma email_rule :
  get validationRules (lit "email")
  = Own (Rule true None None (Some emailPattern) None None
           (Some (lit "Please enter a valid email address (example: user@domain.com)"))).
Proof. vm_compute. reflexivity. Qed.

Lemma inClass_plain rs c : inClass (CharClass false rs) c = inRanges rs c.
Proof. reflexivity. Qed.

Lemma test_emailPattern t :
  test emailPattern t = true
  ↔ ∃ loc domain tld,
      t = loc ++ code "@" :: domain ++ code "." :: tld
      ∧ 1 ≤ length loc ∧ Forall (λ c, isEmailLocalChar c = true) loc
      ∧ 1 ≤ length domain ∧ Forall (λ c, isEmailDomainChar c = true) domain
      ∧ 2 ≤ length tld ∧ Forall (λ c, isLetter c = true) tld.
Proof.
  unfold emailPattern, seqs, set, plus. rewrite test_bol.
  change (Repeat ?r 1 None) with (atLeast 1 r).
  rewrite !ValidationClaims.run_seq.
  split.
  - intros (loc & s2 & p1 & -> & Hl1 & Ha1 & H)%run_atLeast_class.
    rewrite ValidationClaims.run_seq in H.
    apply run_chr in H as (s3 & -> & H).
    rewrite ValidationClaims.run_seq in H.
    apply run_atLeast_class in H as (domain & s4 & p2 & -> & Hl2 & Ha2 & H).
    rewrite ValidationClaims.run_seq in H.
    apply run_chr in H as (s5 & -> & H).
    rewrite ValidationClaims.run_seq in H.
    apply (proj1 (run_atLeast_class_end _ _ _ _)) in H as [Hl3 Ha3].
    exists loc, domain, s5. split; [done|].
    repeat split; try done.
    + eapply Forall_impl; [exact Ha1|]. intros c Hc. cbv beta in *.
      by rewrite inClass_plain, inRanges_emailLocal in Hc.
    + eapply Forall_impl; [exact Ha2|]. intros c Hc. cbv beta in *.
      by rewrite inClass_plain, inRanges_emailDomain in Hc.
    + eapply Forall_impl; [exact Ha3|]. intros c Hc. cbv beta in *.
      by rewrite inClass_plain, inRanges_letters in Hc.
  - intros (loc & domain & tld & -> & Hl1 & Ha1 & Hl2 & Ha2 & Hl3 & Ha3).
    apply run_atLeast_class_complete; [done| |].
    { eapply Forall_impl; [exact Ha1|]. intros c Hc. cbv beta in *.
      by rewrite inClass_plain, inRanges_emailLocal. }
    intros p1. rewrite ValidationClaims.run_seq.
    apply run_chr. eexists. split; [reflexivity|].
    rewrite ValidationClaims.run_seq.
    apply run_atLeast_class_complete; [done| |].
    { eapply Forall_impl; [exact Ha2|]. intros c Hc. cbv beta in *.
      by rewrite inClass_plain, inRanges_emailDomain. }
    intros p2. rewrite ValidationClaims.run_seq.
    apply run_chr. eexists. split; [reflexivity|].
    rewrite ValidationClaims.run_seq.
    apply (proj2 (run_atLeast_class_end _ _ _ _)). split; [done|].
    eapply Forall_impl; [exact Ha3|]. intros c Hc. cbv beta in *.
    by rewrite inClass_plain, inRanges_letters.
Qed.

(** The email field is valid exactly when its trimmed text is a local
    part, an at sign, a domain, a dot and a top-level part: the local part
    one or more of letters, digits, and [._%+-], the domain one or more of
    letters, digits, dot and hyphen, the last part two or more letters. *)
Theorem email_valid_iff p v :
  isValid (validateField p (lit "email") v) = true
  ↔ ∃ loc domain tld,
      trim v = loc ++ code "@" :: domain ++ code "." :: tld
      ∧ 1 ≤ length loc ∧ Forall (λ c, isEmailLocalChar c = true) loc
      ∧ 1 ≤ length domain ∧ Forall (λ c, isEmailDomainChar c = true) domain
      ∧ 2 ≤ length tld ∧ Forall (λ c, isLetter c = true) tld.
Proof.
  rewrite <- test_emailPattern.
  rewrite (isValid_validateField _ _ _ _ email_rule).
  destruct (blank v) eqn:Hb.
  - apply blank_trim_nil in Hb. rewrite Hb. simpl. split; [done|].
    by vm_compute.
  - unfold tooShort, tooLong, patternFails, outOfRange.
    cbn [minLength maxLength pattern min max isSome orb negb andb].
    rewrite bool_decide_eq_false_2 by (vm_compute; discriminate).
    cbn [andb negb]. by rewrite !andb_true_r, negb_involutive.
Qed.

Lemma website_rule :
  get validationRules (lit "website")
  = Own (Rule false None None (Some websitePattern) None None
           (Some (lit "Please enter a valid URL (include http:// or https://)"))).
Proof. vm_compute. reflexivity. Qed.

(** One literal character of a pattern read off the input. *)
Local Ltac read_chr H :=
  rewrite ?ValidationClaims.run_seq in H;
  apply run_chr in H as (? & -> & H); cbv beta in H.

Lemma websitePattern_scheme t :
  test websitePattern t = true →
  ∃ rest, t = lit "http://" ++ rest ∨ t = lit "https://" ++ rest.
Proof.
  unfold websitePattern, text.
  cbn [list_ascii_of_string fmap list_fmap seqs]. rewrite test_bol.
  intros H. do 4 read_chr H.
  rewrite ValidationClaims.run_seq in H. unfold chr at 1, set at 1 in H.
  apply run_opt_class in H as [H|(c & s' & -> & Hc & H)].
  - do 3 read_chr H. eexists. left. reflexivity.
  - do 3 read_chr H.
    assert (c = code "s") as ->.
    { unfold inClass, inRanges, one in Hc. cbn [negated ranges existsb xorb] in Hc.
      rewrite range_single, orb_false_r in Hc. by apply N.eqb_eq in Hc. }
    eexists. right. reflexivity.
Qed.

(** A website value that is not blank is valid only if its trimmed text
    starts with [http://] or [https://], in lower case. *)
Theorem website_needs_scheme p v :
  trim v ≠ [] →
  isValid (validateField p (lit "website") v) = true →
  ∃ rest, trim v = lit "http://" ++ rest ∨ trim v = lit "https://" ++ rest.
Proof.
  intros Hne%blank_false.
  rewrite (isValid_validateField _ _ _ _ website_rule), Hne.
  unfold tooShort, tooLong, patternFails, outOfRange.
  cbn [minLength maxLength pattern min max isSome orb negb andb].
  rewrite bool_decide_eq_false_2 by (vm_compute; discriminate).
  cbn [andb negb]. rewrite !andb_true_r, negb_true_iff, negb_false_iff.
  apply websitePattern_scheme.
Qed.

Lemma website_needs_scheme_witness :
  ∃ rest, trim (lit " https://example.com/a?b=1 ") = lit "http://" ++ rest
          ∨ trim (lit " https://example.com/a?b=1 ") = lit "https://" ++ rest.
Proof.
  apply (website_needs_scheme ∅).
  - vm_compute. discriminate.
  - vm_compute. reflexivity.
Defined.

Lemma dropWhile_app {A} (f : A → bool) x y :
  dropWhile f (x ++ y)
  = match dropWhile f x with [] => dropWhile f y | r => r ++ y end.
Proof.
  induction x as [|a x IH]; simpl; [by destruct (dropWhile f y)|].
  by destruct (f a).
Qed.

Lemma digit_not_space c : isDigit c = true → isWhiteSpace c = false.
Proof.
  intros H. apply not_true_is_false. revert H.
  unfold isDigit, isWhiteSpace.
  rewrite ?orb_true_iff, ?andb_true_iff, ?N.leb_le, ?N.eqb_eq. lia.
Qed.

Lemma digits_noLeading ds :
  Forall (λ c, isDigit c = true) ds → noLeading isWhiteSpace ds.
Proof. intros [|c ds' Hc _]; simpl; [done|]. by apply digit_not_space. Qed.

Lemma trim_digits ds : Forall (λ c, isDigit c = true) ds → trim ds = ds.
Proof.
  intros Hds. unfold trim, trimStart, trimEnd.
  rewrite (dropWhile_fixed _ ds) by by apply digits_noLeading.
  rewrite dropWhile_fixed; [apply reverse_involutive|].
  apply digits_noLeading. by apply Forall_reverse.
Qed.

(** Trimming digits followed by other text keeps the digits and, when
    something is left of the rest, its first character. *)
Lemma trim_digits_then ds c rest :
  Forall (λ c, isDigit c = true) ds → ds ≠ [] →
  trim (ds ++ c :: rest) = ds ∨ ∃ x, trim (ds ++ c :: rest) = ds ++ c :: x.
Proof.
  intros Hds Hne. unfold trim, trimStart.
  rewrite dropWhile_fixed.
  2:{ destruct ds as [|d ds]; [done|]. simpl.
      apply Forall_cons in Hds as [Hd _]. by apply digit_not_space. }
  unfold trimEnd. rewrite reverse_app, dropWhile_app.
  destruct (dropWhile isWhiteSpace (reverse (c :: rest))) as [|y r] eqn:E.
  - left. rewrite dropWhile_fixed; [apply reverse_involutive|].
    apply digits_noLeading. by apply Forall_reverse.
  - right. rewrite reverse_app, reverse_involutive.
    destruct (trimEnd_prefix (c :: rest)) as [k Hk].
    unfold trimEnd in Hk. rewrite E in Hk.
    destruct (reverse (y :: r)) as [|z x] eqn:Er.
    { apply (f_equal length) in Er. rewrite length_reverse in Er. done. }
    injection Hk as <- _. by exists x.
Qed.

Lemma takeWhile_digits ds tail :
  Forall (λ c, isDigit c = true) ds →
  from_option isDigit false (head tail) = false →
  takeWhile isDigit (ds ++ tail) = ds.
Proof.
  intros Hds Htail. induction Hds as [|d ds' Hd _ IH]; cbn [app takeWhile].
  - destruct tail as [|c tail]; [done|].
    cbn [head from_option] in Htail. cbn [takeWhile]. by rewrite Htail.
  - by rewrite Hd, IH.
Qed.

Lemma parseInt10_digits ds tail :
  Forall (λ c, isDigit c = true) ds → ds ≠ [] →
  from_option isDigit false (head tail) = false →
  parseInt10 (ds ++ tail) = Some (digitsValue ds).
Proof.
  intros Hds Hne Htail. unfold parseInt10, trimStart.
  destruct ds as [|d ds]; [done|].
  pose proof Hds as Hds'. apply Forall_cons in Hds' as [Hd _].
  rewrite dropWhile_fixed by (simpl; by apply digit_not_space).
  assert ((d =? 45)%N = false ∧ (d =? 43)%N = false) as [H45 H43].
  { unfold isDigit in Hd. apply andb_true_iff in Hd as [H1 H2].
    apply N.leb_le in H1, H2. split; apply N.eqb_neq; lia. }
  cbn [app]. rewrite H45, H43.
  change (d :: ds ++ tail) with ((d :: ds) ++ tail).
  rewrite takeWhile_digits by done.
  f_equal. apply Z.mul_1_l.
Qed.

(** The age field reads the leading digits only: whatever follows them,
    from the first character that is no digit on, changes nothing. *)
Theorem age_reads_leading_digits p ds c rest :
  Forall (λ c, isDigit c = true) ds → ds ≠ [] → isDigit c = false →
  validateField p (lit "age") (ds ++ c :: rest)
  = validateField p (lit "age") ds.
Proof.
  intros Hds Hne Hc.
  rewrite !ValidationClaims.validateField_age.
  assert (parseInt10 (trim (ds ++ c :: rest)) = parseInt10 (trim ds)
          ∧ trim (ds ++ c :: rest) ≠ []) as [Hparse Hnb].
  { pose proof (parseInt10_digits ds [] Hds Hne eq_refl) as Hplain.
    rewrite app_nil_r in Hplain.
    rewrite (trim_digits ds), Hplain by done.
    destruct (trim_digits_then ds c rest Hds Hne) as [->|[x ->]].
    - by split.
    - split; [by apply parseInt10_digits|]. by destruct ds. }
  apply blank_false in Hnb. rewrite Hnb, Hparse.
  assert (blank ds = false) as ->; [|done].
  apply blank_false. rewrite trim_digits by done. done.
Qed.

Lemma age_reads_leading_digits_witness :
  validateField ∅ (lit "age") (lit "13 years and a half")
  = validateField ∅ (lit "age") (lit "13").
Proof.
  apply (age_reads_leading_digits ∅ (lit "13") (code " ")
           (lit "years and a half")).
  - apply (bool_decide_unpack _). vm_compute. exact I.
  - discriminate.
  - reflexivity.
Defined.

End FieldShapes.

(** ** What the listeners of the form do to the page *)

Module FormEventFacts.
Import JS Obj Dom Validation Form FormEvents Spec.
Import JSFacts ValidationFacts FormFacts.

Lemma error_ne_field (f : jsstring) : f ++ lit "Error" ≠ f.
Proof. intros H. by apply (app_ne_self f (lit "Error")). Qed.

Lemma success_ne_field (f : jsstring) : f ++ lit "Success" ≠ f.
Proof. intros H. by apply (app_ne_self f (lit "Success")). Qed.

Lemma error_ne_success (f : jsstring) : f ++ lit "Error" ≠ f ++ lit "Success".
Proof. intros H%app_inv_head. vm_compute in H. discriminate. Qed.

Lemma success_ne_error (f : jsstring) : f ++ lit "Success" ≠ f ++ lit "Error".
Proof. intros H. by apply (error_ne_success f). Qed.

Create HintDb ids.
Local Hint Resolve error_ne_field success_ne_field error_ne_success
  success_ne_error : ids.

(** The three elements after [updateFieldUI]. *)
Lemma updateFieldUI_field (p : page) (f : jsstring) r field :
  p !! f = Some field →
  updateFieldUI p f r !! f
  = Some (Element (value field) (negb (isValid r))
            (isValid r
             && (classSuccess field || negb (isEmpty (trim (value field)))))
            (display field) (textContent field)).
Proof.
  intros Hf. unfold updateFieldUI, getElementById. rewrite Hf.
  destruct (isValid r), (negb (isEmpty (trim (value field)))) eqn:E;
    rewrite !lookup_alter_ne by auto with ids;
    rewrite !lookup_alter_eq, Hf; cbn;
    rewrite ?orb_true_r, ?orb_false_r; done.
Qed.

Lemma updateFieldUI_errorElement (p : page) (f : jsstring) r field e :
  p !! f = Some field →
  p !! (f ++ lit "Error") = Some e →
  updateFieldUI p f r !! (f ++ lit "Error")
  = Some (if isValid r then setDisplay DisplayNone e
          else setDisplay DisplayBlock
                 (setTextContent (default [] (resultMessage r)) e)).
Proof.
  intros Hf He. unfold updateFieldUI, getElementById. rewrite Hf.
  destruct (isValid r), (negb (isEmpty (trim (value field))));
    repeat (rewrite lookup_alter_eq
            || rewrite lookup_alter_ne by auto with ids);
    by rewrite He.
Qed.

(** After [updateFieldUI] on a declared field of the page, the field carries the
    error class exactly when the result is invalid and never carries both
    the error and the success class; its value is as before; the error
    text, where the page has one, is visible exactly when the result is
    invalid and then reads the result's message. *)
Theorem updateFieldUI_shows_verdict (p : page) (f : jsstring) r field :
  f ∈ fieldNames →
  p !! f = Some field →
  ∃ field',
    updateFieldUI p f r !! f = Some field'
    ∧ value field' = value field
    ∧ classError field' = negb (isValid r)
    ∧ classError field' && classSuccess field' = false
    ∧ ∀ e, p !! (f ++ lit "Error") = Some e →
           ∃ e', updateFieldUI p f r !! (f ++ lit "Error") = Some e'
                 ∧ display e'
                   = (if isValid r then DisplayNone else DisplayBlock)
                 ∧ (isValid r = false →
                    textContent e' = default [] (resultMessage r)).
Proof.
  intros _ Hf. eexists. split; [by apply updateFieldUI_field|].
  cbn. split; [done|]. split; [done|].
  split; [by destruct (isValid r)|].
  intros e He. eexists. split; [by eapply updateFieldUI_errorElement|].
  by destruct (isValid r).
Qed.

Lemma updateFieldUI_shows_verdict_witness :
  ∃ field',
    updateFieldUI Samples.formWithBadAge (lit "email")
      (invalid (Some (lit "no"))) !! lit "email" = Some field'
    ∧ classError field' = true ∧ classSuccess field' = false.
Proof.
  destruct (updateFieldUI_shows_verdict Samples.formWithBadAge (lit "email")
              (invalid (Some (lit "no")))
              (Element (lit "user@domain.com") true false DisplayUnset []))
    as (field' & Hq & _ & He & Hx & _).
  - apply (bool_decide_unpack _). vm_compute. exact I.
  - vm_compute. reflexivity.
  - exists field'. split; [exact Hq|]. split; [exact He|].
    rewrite He in Hx. exact Hx.
Defined.

(** A valid result on a field whose value is blank leaves the success
    class and the success text as they were: a success mark shown for an
    earlier value stays. *)
Theorem updateFieldUI_blank_keeps_success (p : page) (f : jsstring) r field :
  f ∈ fieldNames →
  p !! f = Some field →
  isValid r = true →
  trim (value field) = [] →
  classSuccess <$> (updateFieldUI p f r !! f) = Some (classSuccess field)
  ∧ updateFieldUI p f r !! (f ++ lit "Success") = p !! (f ++ lit "Success").
Proof.
  intros _ Hf Hv Ht. split.
  - rewrite (updateFieldUI_field _ _ _ _ Hf), Hv, Ht. cbn.
    by rewrite orb_false_r.
  - unfold updateFieldUI, getElementById. rewrite Hf, Hv, Ht. cbn.
    by rewrite !lookup_alter_ne by auto with ids.
Qed.

Lemma updateFieldUI_blank_keeps_success_witness :
  classSuccess
    <$> (updateFieldUI
           {[ lit "phone" := Element [] false true DisplayUnset [] ]}
           (lit "phone") valid !! lit "phone")
  = Some true.
Proof.
  apply (updateFieldUI_blank_keeps_success
           {[ lit "phone" := Element [] false true DisplayUnset [] ]}
           (lit "phone") valid (Element [] false true DisplayUnset []));
    [apply (bool_decide_unpack _); vm_compute; exact I
    |vm_compute; reflexivity..].
Defined.

(** Focusing a field takes its error mark and error text away, whatever
    put them there, and touches nothing else: the value and the success
    class stay, and a field without error mark leaves the page as it is. *)
Theorem onFocus_clears_error (p : page) (f : jsstring) field :
  f ∈ fieldNames →
  p !! f = Some field →
  onFocus p f !! f = Some (setError false field)
  ∧ (∀ e, onFocus p f !! (f ++ lit "Error") = Some e →
          classError field = true → display e = DisplayNone)
  ∧ (classError field = false → onFocus p f = p)
  ∧ onFocus (onFocus p f) f = onFocus p f.
Proof.
  intros _ Hf.
  assert (onFocus p f !! f = Some (setError false field)) as Hfield.
  { unfold onFocus, getElementById. rewrite Hf.
    destruct (classError field) eqn:E.
    - rewrite lookup_alter_ne by auto with ids.
      by rewrite lookup_alter_eq, Hf.
    - rewrite Hf. by destruct field; simplify_eq/=. }
  split; [done|]. split; [|split].
  - intros e He Herr. revert He. unfold onFocus, getElementById.
    rewrite Hf, Herr, lookup_alter_eq.
    destruct (alter (setError false) f p !! (f ++ lit "Error")); [|done].
    by intros [= <-].
  - intros Herr. unfold onFocus, getElementById. by rewrite Hf, Herr.
  - unfold onFocus at 1. unfold getElementById. by rewrite Hfield.
Qed.

Lemma onFocus_clears_error_witness :
  onFocus Samples.filledForm (lit "email") !! lit "email"
  = Some (Element (lit "user@domain.com") false false DisplayUnset []).
Proof.
  apply (onFocus_clears_error Samples.filledForm (lit "email")
           (Element (lit "user@domain.com") true false DisplayUnset [])).
  - apply (bool_decide_unpack _). vm_compute. exact I.
  - vm_compute. reflexivity.
Defined.

Lemma submitField_page st (f : jsstring) :
  pageNow (submitField st f) = onBlur (pageNow st) f.
Proof.
  unfold submitField, onBlur.
  destruct (getElementById (pageNow st) f) as [field|]; [|done].
  by destruct (isValid (validateField (pageNow st) f (value field))).
Qed.

(** A submission shows the verdicts exactly as leaving each field in turn
    would: the page after the loop of the submit listener is the page
    after the blur listeners of the fields, run in the order of
    declaration. *)
Theorem submit_marks_as_blur (p : page) :
  pageNow (finalState (onSubmit p)) = foldl onBlur p fieldNames.
Proof.
  unfold onSubmit. cbv zeta. cbn [finalState].
  change p with (pageNow (SubmitState true ∅ [] p)) at 2.
  generalize (SubmitState true ∅ [] p). generalize fieldNames.
  intros names. induction names as [|f names IH]; intros st; [done|].
  cbn [foldl]. by rewrite IH, submitField_page.
Qed.

Lemma find_first_report {P : jsstring → Prop} `{!∀ x, Decision (P x)}
    (g : jsstring → option (jsstring * option jsstring)) (l : list jsstring) :
  (∀ f, f ∈ l → P f ↔ is_Some (g f)) →
  (∀ f x, g f = Some x → x.1 = f) →
  snd <$> list_find P l = fst <$> head (omap g l).
Proof.
  intros HP Hg. induction l as [|f l IH]; [done|].
  csimpl.
  assert (P f ↔ is_Some (g f)) as Hf by (apply HP, elem_of_cons; by left).
  assert (snd <$> list_find P l = fst <$> head (omap g l)) as IH'.
  { apply IH. intros f' Hf'. apply HP, elem_of_cons. by right. }
  case_decide as HPf.
  - apply Hf in HPf as [x Hx]. rewrite Hx. simpl.
    by rewrite (Hg _ _ Hx).
  - destruct (g f) as [x|] eqn:Hx.
    + destruct HPf. apply Hf. by eexists.
    + rewrite <- IH'. by destruct (list_find P l) as [[??]|].
Qed.

Lemma fieldReport_name (p : page) (f : jsstring) x :
  fieldReport p f = Some x → x.1 = f.
Proof.
  unfold fieldReport. destruct (fieldResult p f) as [r|]; [|done].
  destruct (isValid r); [done|]. by intros [= <-].
Qed.

Lemma fieldReport_passes (p : page) (f : jsstring) :
  is_Some (fieldReport p f) ↔ fieldPasses p f = false.
Proof.
  unfold fieldReport, fieldPasses.
  destruct (fieldResult p f) as [r|]; simpl.
  - destruct (isValid r); split; try done; by intros [? ?].
  - split; [by intros [? ?]|done].
Qed.

(** After the loop of the submit listener the first field that carries
    the error class, which [handleFailedSubmission] focuses, is the field
    of the first entry of the Error Report; there is none exactly when the
    report is empty. *)
Theorem focus_goes_to_first_error (p : page) :
  firstErrorField (pageNow (finalState (onSubmit p)))
  = fst <$> head (errors (finalState (onSubmit p))).
Proof.
  destruct (onSubmit_collects p) as (He & _ & _). rewrite He.
  unfold firstErrorField. apply find_first_report.
  - intros f Hf. rewrite fieldReport_passes.
    pose proof (submit_fold_shown p fieldNames (SubmitState true ∅ [] p) f)
      as Hshown.
    unfold onSubmit. cbv zeta. cbn [finalState]. unfold getElementById.
    pose proof fieldNames_ids as Hids. rewrite Forall_forall in Hids.
    cbn [pageNow] in Hshown.
    specialize (Hshown (reflexivity _) (Hids f Hf)).
    set (q := pageNow (foldl submitField (SubmitState true ∅ [] p)
                         fieldNames)) in *.
    destruct (decide (f ∈ fieldNames ∧ is_Some (getElementById p f)))
      as [[_ Hp]|Hno].
    + clearbody q. clear Hids He.
      destruct (q !! f) as [e|]; [|done].
      cbn [fmap option_fmap option_map from_option] in *.
      injection Hshown as ->. by destruct (fieldPasses p f).
    + assert (getElementById p f = None) as Hnone.
      { destruct (getElementById p f) eqn:E; [|done].
        destruct Hno. split; [done|by eexists]. }
      unfold getElementById in Hnone. rewrite Hnone in Hshown.
      clearbody q. clear Hids He.
      destruct (q !! f) as [e|]; [done|].
      cbn [from_option].
      unfold fieldPasses, fieldResult, fieldValue, getElementById.
      rewrite Hnone. done.
  - intros f x. apply fieldReport_name.
Qed.

Lemma omap_nil_iff {A B} (g : A → option B) (l : list A) :
  omap g l = [] ↔ ∀ x, x ∈ l → g x = None.
Proof.
  split; [|apply omap_none].
  induction l as [|a l IH]; intros H x Hx; [by apply elem_of_nil in Hx|].
  csimpl in H. destruct (g a) eqn:Ha; [done|].
  apply elem_of_cons in Hx as [->|Hx]; [done|]. by apply IH.
Qed.

Lemma submit_valid_iff_no_errors (p : page) :
  isFormValid (finalState (onSubmit p)) = true
  ↔ errors (finalState (onSubmit p)) = [].
Proof.
  destruct (onSubmit_collects p) as (He & _ & Hv). rewrite He, Hv.
  rewrite forallb_fieldPasses, omap_nil_iff.
  split; intros H f Hf.
  - by apply fieldPasses_report, H.
  - specialize (H f Hf). destruct (fieldPasses p f) eqn:E; [done|].
    apply fieldReport_passes in E as [x Hx]. congruence.
Qed.

Lemma onSubmit_sameValues (p : page) :
  sameValues (pageNow (finalState (onSubmit p))) p.
Proof.
  unfold onSubmit. cbv zeta. cbn [finalState].
  by destruct (submit_fold p fieldNames (SubmitState true ∅ [] p)) as [H _].
Qed.

Lemma sameValues_lookup (q p : page) (k : jsstring) :
  sameValues q p → is_Some (p !! k) → is_Some (q !! k).
Proof. intros H Hk. by apply (sameValues_present q p k H). Qed.

(** The submit listener takes the success path exactly when the Error
    Report is empty, and the success indicator of the page is then shown,
    and hidden otherwise, whatever it showed before. *)
Theorem submit_success_indicator (p : page) e :
  p !! lit "formSuccess" = Some e →
  (isFormValid (finalState (onSubmit p)) = true
   ↔ errors (finalState (onSubmit p)) = [])
  ∧ display <$> (pageAfterSubmit p !! lit "formSuccess")
    = Some (if bool_decide (errors (finalState (onSubmit p)) = [])
            then DisplayBlock else DisplayNone).
Proof.
  intros He. split; [apply submit_valid_iff_no_errors|].
  assert (is_Some (pageNow (finalState (onSubmit p)) !! lit "formSuccess"))
    as [e' He'].
  { apply (sameValues_lookup _ p); [apply onSubmit_sameValues|].
    rewrite He. by eexists. }
  pose proof (submit_valid_iff_no_errors p) as Hiff.
  unfold pageAfterSubmit. cbv zeta.
  generalize dependent (finalState (onSubmit p)). intros st Hst Hiff.
  destruct (isFormValid st).
  - rewrite bool_decide_eq_true_2 by by apply Hiff.
    unfold showFormSuccess. rewrite lookup_alter_eq, Hst. reflexivity.
  - rewrite bool_decide_eq_false_2.
    + unfold hideFormSuccess. rewrite lookup_alter_eq, Hst. reflexivity.
    + intros H. apply Hiff in H. discriminate H.
Qed.

Lemma submit_success_indicator_witness :
  display
    <$> (pageAfterSubmit
           (<[lit "formSuccess" := Samples.hidden]> Samples.filledForm)
         !! lit "formSuccess")
  = Some DisplayBlock.
Proof.
  destruct (submit_success_indicator
              (<[lit "formSuccess" := Samples.hidden]> Samples.filledForm)
              Samples.hidden) as [_ H].
  - vm_compute. reflexivity.
  - rewrite H. vm_compute. reflexivity.
Defined.

(** *** Clearing the validation states *)

Lemma alter_keeps (P : element → Prop) (g : element → element) (i : jsstring) (p : page)
    (k : jsstring) :
  (∀ e, P e → P (g e)) → holdsAt P p k → holdsAt P (alter g i p) k.
Proof.
  intros Hg Hk e. rewrite lookup_alter. case_decide as Hik; [|apply Hk].
  subst i. destruct (p !! k) as [e0|] eqn:E; [|done].
  intros [= <-]. by apply Hg, Hk.
Qed.

Lemma alter_sets (P : element → Prop) (g : element → element) (i : jsstring) (p : page) :
  (∀ e, P (g e)) → holdsAt P (alter g i p) i.
Proof.
  intros Hg e. rewrite lookup_alter_eq.
  destruct (p !! i); [|done]. by intros [= <-].
Qed.

Lemma clearField_keeps (P : element → Prop) (p : page) (f k : jsstring) :
  settled P → holdsAt P p k → holdsAt P (clearField p f) k.
Proof.
  intros [Hd Hc] Hk. unfold clearField.
  destruct (getElementById p f); [|done].
  by do 3 (apply alter_keeps; [done|]).
Qed.

Lemma clear_fold_keeps (P : element → Prop) (names : list jsstring) (p : page) (k : jsstring) :
  settled P → holdsAt P p k → holdsAt P (foldl clearField p names) k.
Proof.
  intros HP. revert p. induction names as [|f names IH]; intros p Hk; [done|].
  cbn [foldl]. by apply IH, clearField_keeps.
Qed.

Lemma alter_present (g : element → element) (i : jsstring) (p : page)
    (k : jsstring) :
  is_Some (alter g i p !! k) ↔ is_Some (p !! k).
Proof.
  rewrite lookup_alter. case_decide; [|done]. subst i.
  by rewrite fmap_is_Some.
Qed.

Lemma clearField_present (p : page) (f k : jsstring) :
  is_Some (clearField p f !! k) ↔ is_Some (p !! k).
Proof.
  unfold clearField. destruct (getElementById p f); [|done].
  by rewrite !alter_present.
Qed.

Lemma unmarked_settled : settled unmarked.
Proof. split; intros e [? ?]; by split. Qed.

Lemma concealed_settled : settled concealed.
Proof. by split. Qed.

Lemma clearField_clears (p : page) (f : jsstring) :
  is_Some (p !! f) →
  holdsAt unmarked (clearField p f) f
  ∧ holdsAt concealed (clearField p f) (f ++ lit "Error")
  ∧ holdsAt concealed (clearField p f) (f ++ lit "Success").
Proof.
  intros [field Hf]. unfold clearField, getElementById. rewrite Hf.
  split; [|split].
  - do 2 (apply alter_keeps; [by intros e [? ?]|]). by apply alter_sets.
  - apply alter_keeps; [done|]. by apply alter_sets.
  - by apply alter_sets.
Qed.

Lemma clear_fold_clears (names : list jsstring) (p : page) (f : jsstring) :
  f ∈ names → is_Some (p !! f) →
  holdsAt unmarked (foldl clearField p names) f
  ∧ holdsAt concealed (foldl clearField p names) (f ++ lit "Error")
  ∧ holdsAt concealed (foldl clearField p names) (f ++ lit "Success").
Proof.
  revert p. induction names as [|f' names IH]; intros p Hin Hp.
  { by apply elem_of_nil in Hin. }
  cbn [foldl]. destruct (decide (f = f')) as [<-|Hne].
  - destruct (clearField_clears p f Hp) as (H1 & H2 & H3).
    split; [|split]; apply clear_fold_keeps;
      auto using unmarked_settled, concealed_settled.
  - apply IH; [|by apply clearField_present].
    apply elem_of_cons in Hin as [?|?]; done.
Qed.

Lemma clearField_sameValues (p : page) (f : jsstring) :
  sameValues (clearField p f) p.
Proof.
  intros k. unfold clearField. destruct (getElementById p f); [|done].
  by rewrite !alter_fieldValue.
Qed.

Lemma clear_fold_sameValues (names : list jsstring) (p : page) :
  sameValues (foldl clearField p names) p.
Proof.
  revert p. induction names as [|f names IH]; intros p; [done|].
  cbn [foldl]. etrans; [apply IH|apply clearField_sameValues].
Qed.

(** After [resetForm] has cleared the validation states, no declared
    field of the page carries the error or the success class, its error
    and success texts are hidden, so is the success indicator, no field is
    left to receive the focus of a failed submission, and no value has
    changed. *)
Theorem clearValidationStates_clears (p : page) (f : jsstring) :
  f ∈ fieldNames → is_Some (p !! f) →
  holdsAt unmarked (clearValidationStates p) f
  ∧ holdsAt concealed (clearValidationStates p) (f ++ lit "Error")
  ∧ holdsAt concealed (clearValidationStates p) (f ++ lit "Success")
  ∧ holdsAt concealed (clearValidationStates p) (lit "formSuccess")
  ∧ firstErrorField (clearValidationStates p) = None
  ∧ sameValues (clearValidationStates p) p.
Proof.
  intros Hin Hp. unfold clearValidationStates, hideFormSuccess.
  assert (sameValues (alter (setDisplay DisplayNone) (lit "formSuccess")
                        (foldl clearField p fieldNames)) p) as Hsame.
  { etrans; [|apply clear_fold_sameValues].
    intros k. by rewrite alter_fieldValue. }
  destruct (clear_fold_clears fieldNames p f Hin Hp) as (H1 & H2 & H3).
  split; [apply alter_keeps; [by intros e [? ?]|done]|].
  split; [by apply alter_keeps|]. split; [by apply alter_keeps|].
  split; [by apply alter_sets|]. split.
  - unfold firstErrorField.
    destruct (list_find _ fieldNames) as [[i g]|] eqn:E; [|done].
    apply list_find_Some in E as (Hg%list_elem_of_lookup_2 & Herr & _).
    exfalso. unfold getElementById in Herr.
    destruct (alter (setDisplay DisplayNone) (lit "formSuccess")
                (foldl clearField p fieldNames) !! g) as [e|] eqn:Eg;
      [|done].
    assert (is_Some (p !! g)) as Hpg.
    { apply (sameValues_present _ _ g Hsame).
      unfold getElementById. rewrite Eg. by eexists. }
    destruct (clear_fold_clears fieldNames p g Hg Hpg) as (Hm & _).
    assert (unmarked e) as [Hne _].
    { revert Eg. apply alter_keeps; [by intros ? [? ?]|done]. }
    cbn [from_option] in Herr. congruence.
  - exact Hsame.
Qed.

Lemma clearValidationStates_clears_witness :
  holdsAt unmarked (clearValidationStates Samples.filledForm) (lit "email").
Proof.
  refine (proj1 (clearValidationStates_clears Samples.filledForm
                   (lit "email") _ _)).
  - apply (bool_decide_unpack _). vm_compute. exact I.
  - vm_compute. by eexists.
Defined.

End FormEventFacts.

(** ** How the clicks of the disclosure groups compose *)

Module DisclosureMore.
Import JS Disclosure DisclosureShapes DisclosureFacts DisclosureSamples.

Lemma setActive_setActive b b' n : setActive b (setActive b' n) = setActive b n.
Proof. done. Qed.


(** The queries see the classes, ids and attributes only. *)
Lemma find_bare (P : node → Prop) `{!∀ n, Decision (P n)} (d1 d2 : list node) :
  (∀ n, P n ↔ P (bare n)) →
  bare <$> d1 = bare <$> d2 →
  fst <$> list_find P d1 = fst <$> list_find P d2.
Proof.
  intros HP. revert d2.
  induction d1 as [|n1 d1 IH]; intros [|n2 d2] Hbare; try done.
  pose proof (f_equal head Hbare) as Hn. apply (inj Some) in Hn.
  pose proof (f_equal tail Hbare) as Hd. cbn [tail fmap list_fmap] in Hd.
  specialize (IH _ Hd). cbn.
  assert (P n1 ↔ P n2) as Hiff by (rewrite (HP n1), (HP n2), Hn; done).
  destruct (decide (P n1)), (decide (P n2)); try done; try tauto.
  destruct (list_find P d1) as [[i1 x1]|], (list_find P d2) as [[i2 x2]|];
    cbn in IH |- *; congruence.
Qed.


Lemma getElementById_bare (d1 d2 : list node) id :
  bare <$> d1 = bare <$> d2 → getElementById d1 id = getElementById d2 id.
Proof. intros H. unfold getElementById. by apply find_bare. Qed.




Lemma bare_tabNode button target j n : bare (tabNode button target j n) = bare n.
Proof.
  unfold tabNode. case_decide; [done|].
  by destruct (isTabBtn n || isTabPanel n).
Qed.


Lemma tabClick_lookup (d : list node) b (j : nat) :
  tabClick d b !! j
  = tabNode (position b) (getElementById d (toStringOr (dataTab b))) j
      <$> d !! j.
Proof.
  rewrite lookup_tabClick. destruct (d !! j) as [n|]; [|done].
  cbn [fmap option_fmap option_map]. f_equal. unfold tabNode. cbv zeta.
  destruct n as [fa fi tb tp nid da act].
  destruct (decide (position b = j)) as [Hb|Hb],
    (decide (getElementById d (toStringOr (dataTab b)) = Some j)) as [Ht|Ht],
    (decide (j = position b
             ∨ getElementById d (toStringOr (dataTab b)) = Some j))
      as [Hor|Hor];
    destruct tb, tp; try reflexivity; exfalso; intuition congruence.
Qed.

Lemma tabClick_bare (d : list node) b : bare <$> tabClick d b = bare <$> d.
Proof.
  apply list_eq. intros j. rewrite !list_lookup_fmap, tabClick_lookup.
  destruct (d !! j) as [n|]; [|done]. cbn. by rewrite bare_tabNode.
Qed.









Lemma tabClick_target (d : list node) b id :
  getElementById (tabClick d b) id = getElementById d id.
Proof. apply getElementById_bare, tabClick_bare. Qed.

(** The last click wins: when the first button and the element it names
    belong to the tab set, a click on a tab button after a click on
    another one gives the document of the second click alone.  A second
    click on the same button changes nothing in any case. *)
Theorem tab_last_click_wins (d : list node) b b' :
  inTabSet d (position b) →
  from_option (inTabSet d) True (getElementById d (toStringOr (dataTab b))) →
  tabClick (tabClick d b) b' = tabClick d b'
  ∧ tabClick (tabClick d b) b = tabClick d b.
Proof.
  intros Hb Ht.
  assert (∀ j n, d !! j = Some n →
            j = position b
            ∨ getElementById d (toStringOr (dataTab b)) = Some j →
            isTabBtn n || isTabPanel n = true) as Hin.
  { intros j n Hj [->|Hj'].
    - unfold inTabSet in Hb. by rewrite Hj in Hb.
    - rewrite Hj' in Ht. cbn in Ht. unfold inTabSet in Ht.
      by rewrite Hj in Ht. }
  split; apply list_eq; intros j;
    rewrite !tabClick_lookup, !tabClick_target;
    destruct (d !! j) as [n|] eqn:Hj; try done;
    cbn [fmap option_fmap option_map]; f_equal;
    pose proof (Hin j n Hj) as Hin'; unfold tabNode;
    destruct n as [fa fi tb tp nid da act];
    cbn [isTabBtn isTabPanel] in Hin';
    (destruct (decide (j = position b
                       ∨ getElementById d (toStringOr (dataTab b)) = Some j))
       as [Hor|Hor]; [apply Hin' in Hor|clear Hin']);
    repeat case_decide; destruct tb, tp; try reflexivity;
    try discriminate Hor; tauto.
Qed.

Lemma tab_last_click_wins_witness :
  tabClick (tabClick tabDocument secondTab) (TabButton 0 (Some (lit "tab1")))
  = tabClick tabDocument (TabButton 0 (Some (lit "tab1"))).
Proof.
  apply (tab_last_click_wins tabDocument secondTab); vm_compute; reflexivity.
Defined.

(** After a click on a tab button the element its [data-tab] names is
    active; the button not being a panel itself, that element is the only
    panel that can be active, and when no element has that id no panel is
    active at all. *)
Theorem tab_shows_its_panel (d : list node) b :
  from_option isTabPanel false (d !! position b) = false →
  (∀ t, getElementById d (toStringOr (dataTab b)) = Some t →
        active <$> (tabClick d b !! t) = Some true)
  ∧ (∀ j, activeIn isTabPanel (tabClick d b) j →
          getElementById d (toStringOr (dataTab b)) = Some j)
  ∧ atMostOneActive isTabPanel (tabClick d b).
Proof.
  intros Hpos. split; [|split].
  - intros t Ht. rewrite tabClick_lookup, Ht.
    assert (is_Some (d !! t)) as [n Hn].
    { unfold getElementById in Ht.
      apply fmap_Some in Ht as ([i x] & Hfind & Heq). cbn in Heq. subst t.
      apply list_find_Some in Hfind as (Hfind & _). by eexists. }
    rewrite Hn. cbn. unfold tabNode. by rewrite decide_True by auto.
  - intros j (n' & Hn' & Hcls & Hact).
    rewrite tabClick_lookup in Hn'.
    destruct (d !! j) as [n|] eqn:Hj; [|done]. injection Hn' as <-.
    unfold tabNode in Hcls, Hact.
    destruct (decide (j = position b
                      ∨ getElementById d (toStringOr (dataTab b)) = Some j))
      as [[->|?]|_]; [|done|].
    + rewrite Hj in Hpos. cbn in Hpos, Hcls. congruence.
    + exfalso. destruct n as [fa fi tb tp nid da act].
      destruct tb, tp; simplify_eq/=.
  - by apply DisclosureClaims.tabClick_one_panel.
Qed.

Lemma tab_shows_its_panel_witness :
  active <$> (tabClick tabDocument secondTab !! 3) = Some true.
Proof.
  destruct (tab_shows_its_panel tabDocument secondTab) as (H & _).
  - vm_compute. reflexivity.
  - apply H. vm_compute. reflexivity.
Defined.

End DisclosureMore.

(** ** The theme toggle *)

Module ThemeFacts.
Import JS Theme.

Lemma saved_theme_read_back_aux (theme : jsstring) (s : storage) :
  getStoredTheme (saveTheme theme s)
  = if storageDefined s && xorb (setItemThrows s) (getItemThrows s)
    then (if setItemThrows s then item s else currentTheme s)
    else Some theme.
Proof.
  unfold getStoredTheme, saveTheme.
  by destruct (storageDefined s), (setItemThrows s), (getItemThrows s).
Qed.

(** What [getStoredTheme] reads after [saveTheme]: the saved theme, unless
    the storage is there and exactly one of the two accesses throws; then
    the write went to one place and the read comes from the other, which
    still holds what it held. *)
Theorem saved_theme_read_back (theme : jsstring) (s : storage) :
  getStoredTheme (saveTheme theme s)
  = if storageDefined s && xorb (setItemThrows s) (getItemThrows s)
    then (if setItemThrows s then item s else currentTheme s)
    else Some theme.
Proof. apply saved_theme_read_back_aux. Qed.

Lemma light_ne_dark : lit "light-theme" ≠ lit "dark-theme".
Proof. vm_compute. discriminate. Qed.

Lemma themeClick_classes (st : themeState) :
  bodyClasses (themeClick st)
  = (if bool_decide (lit "light-theme" ∈ bodyClasses st)
     then {[ lit "dark-theme" ]} else {[ lit "light-theme" ]})
    ∪ (bodyClasses st ∖ themeClasses).
Proof.
  unfold themeClick. cbn [bodyClasses]. by case_bool_decide.
Qed.

Lemma themeClick_elem (st : themeState) (c : jsstring) :
  c ∈ bodyClasses (themeClick st)
  ↔ c = (if bool_decide (lit "light-theme" ∈ bodyClasses st)
         then lit "dark-theme" else lit "light-theme")
    ∨ (c ∈ bodyClasses st ∧ c ≠ lit "light-theme" ∧ c ≠ lit "dark-theme").
Proof.
  rewrite themeClick_classes. unfold themeClasses.
  case_bool_decide;
    rewrite elem_of_union, elem_of_difference, elem_of_union,
      !elem_of_singleton; tauto.
Qed.

Lemma themeClick_dark (st : themeState) :
  lit "dark-theme" ∈ bodyClasses (themeClick st)
  ↔ lit "light-theme" ∈ bodyClasses st.
Proof.
  pose proof light_ne_dark as Hne. rewrite themeClick_elem.
  case_bool_decide; intuition congruence.
Qed.

Lemma themeClick_light (st : themeState) :
  lit "light-theme" ∈ bodyClasses (themeClick st)
  ↔ lit "light-theme" ∉ bodyClasses st.
Proof.
  pose proof light_ne_dark as Hne. rewrite themeClick_elem.
  case_bool_decide; intuition congruence.
Qed.

Lemma themeClick_other (st : themeState) (c : jsstring) :
  c ∉ themeClasses →
  c ∈ bodyClasses (themeClick st) ↔ c ∈ bodyClasses st.
Proof.
  unfold themeClasses. rewrite elem_of_union, !elem_of_singleton.
  intros Hc. rewrite themeClick_elem.
  case_bool_decide; intuition congruence.
Qed.

Lemma themeClick_isLight (st : themeState) :
  bool_decide (lit "light-theme" ∈ bodyClasses (themeClick st))
  = negb (bool_decide (lit "light-theme" ∈ bodyClasses st)).
Proof.
  rewrite (bool_decide_ext _ _ (themeClick_light st)).
  by rewrite bool_decide_not.
Qed.

Lemma themeClick_text (st : themeState) :
  toggleText (themeClick st)
  = if bool_decide (lit "light-theme" ∈ bodyClasses (themeClick st))
    then darkLabel else lightLabel.
Proof.
  rewrite themeClick_isLight. unfold themeClick. cbn [toggleText].
  by case_bool_decide.
Qed.

Lemma themeClick_thrice (st : themeState) :
  bodyClasses (themeClick (themeClick (themeClick st)))
  = bodyClasses (themeClick st).
Proof.
  apply set_eq. intros c.
  destruct (decide (c = lit "light-theme")) as [->|Hl].
  { rewrite !themeClick_light.
    destruct (decide (lit "light-theme" ∈ bodyClasses st)); tauto. }
  destruct (decide (c = lit "dark-theme")) as [->|Hd].
  { rewrite !themeClick_dark, !themeClick_light.
    destruct (decide (lit "light-theme" ∈ bodyClasses st)); tauto. }
  assert (c ∉ themeClasses) as Hc.
  { unfold themeClasses. rewrite elem_of_union, !elem_of_singleton. tauto. }
  by rewrite !themeClick_other.
Qed.

(** After a click on the toggle the body has exactly one of the two theme
    classes, the dark one exactly when it had the light one before; the
    button offers the other theme; every other class of the body is as it
    was; and the third click gives the classes and the text of the
    first. *)
Theorem themeClick_switches (st : themeState) :
  (lit "dark-theme" ∈ bodyClasses (themeClick st)
   ↔ lit "light-theme" ∈ bodyClasses st)
  ∧ (lit "light-theme" ∈ bodyClasses (themeClick st)
     ↔ lit "dark-theme" ∉ bodyClasses (themeClick st))
  ∧ (∀ c, c ∉ themeClasses →
          c ∈ bodyClasses (themeClick st) ↔ c ∈ bodyClasses st)
  ∧ toggleText (themeClick st)
    = (if bool_decide (lit "light-theme" ∈ bodyClasses (themeClick st))
       then darkLabel else lightLabel)
  ∧ bodyClasses (themeClick (themeClick (themeClick st)))
    = bodyClasses (themeClick st)
  ∧ toggleText (themeClick (themeClick (themeClick st)))
    = toggleText (themeClick st).
Proof.
  split; [apply themeClick_dark|]. split.
  { rewrite themeClick_dark, themeClick_light. tauto. }
  split; [apply themeClick_other|]. split; [apply themeClick_text|].
  split; [apply themeClick_thrice|].
  by rewrite !themeClick_text, themeClick_thrice.
Qed.

(** When the storage is away, or works, or fails both ways, every click
    leaves the theme it switched to where [getStoredTheme] finds it. *)
Theorem themeClick_saves (st : themeState) :
  storageDefined (store st) = false
  ∨ setItemThrows (store st) = getItemThrows (store st) →
  getStoredTheme (store (themeClick st))
  = Some (if bool_decide (lit "light-theme" ∈ bodyClasses (themeClick st))
          then lit "light" else lit "dark").
Proof.
  intros Hs. rewrite themeClick_isLight.
  unfold themeClick. cbn [store]. rewrite saved_theme_read_back_aux.
  assert (storageDefined (store st)
          && xorb (setItemThrows (store st)) (getItemThrows (store st))
          = false) as ->.
  { destruct Hs as [->| ->]; [done|].
    by rewrite xorb_nilpotent, andb_false_r. }
  by case_bool_decide.
Qed.

Lemma themeClick_saves_witness :
  getStoredTheme
    (store (themeClick
              (ThemeState {[ lit "light-theme" ]} darkLabel
                 (Storage true true true None None))))
  = Some (lit "dark").
Proof.
  rewrite (themeClick_saves
             (ThemeState {[ lit "light-theme" ]} darkLabel
                (Storage true true true None None))).
  - rewrite themeClick_isLight. cbn [bodyClasses].
    rewrite bool_decide_eq_true_2 by (by apply elem_of_singleton).
    reflexivity.
  - right. reflexivity.
Defined.

End ThemeFacts.

(** ** Start-up *)

Module StartupFacts.
Import JS Theme Startup.

Lemma theme_class_inj (t : jsstring) :
  t ++ lit "-theme" = lit "light-theme" ↔ t = lit "light".
Proof.
  split; [|by intros ->].
  change (lit "light-theme") with (lit "light" ++ lit "-theme").
  apply app_inv_tail.
Qed.

Lemma toggleTextFor_dark (t : jsstring) :
  toggleTextFor t = darkLabel ↔ t = lit "light".
Proof.
  unfold toggleTextFor. case_decide as Ht; [done|].
  split; [|done]. intros Heq. vm_compute in Heq. discriminate Heq.
Qed.

(** When [initializeThemeToggle] returns, the body has the class of the
    stored theme, the light one by default; it has the light class
    exactly when that theme is the light one, and the button offers the
    dark mode exactly then: class and text agree, as they do after every
    click. *)
Theorem initializeThemeToggle_agrees (hasToggle : bool)
    (classes : gset jsstring) (s : storage) (st : themeState) :
  initializeThemeToggle hasToggle classes s = Some st →
  hasToggle = true
  ∧ savedThemeOr s ++ lit "-theme" ∈ bodyClasses st
  ∧ (lit "light-theme" ∈ bodyClasses st ↔ savedThemeOr s = lit "light")
  ∧ (getStoredTheme s = None → lit "light-theme" ∈ bodyClasses st)
  ∧ toggleText st
    = (if bool_decide (lit "light-theme" ∈ bodyClasses st)
       then darkLabel else lightLabel)
  ∧ store st = s.
Proof.
  unfold initializeThemeToggle. cbv zeta.
  destruct (validToken (savedThemeOr s ++ lit "-theme")); [|done].
  destruct hasToggle; [|done]. cbn [negb]. intros [= <-]. cbn.
  assert (lit "light-theme"
            ∈ ({[savedThemeOr s ++ lit "-theme"]} ∪ classes ∖ themeClasses
               : gset jsstring)
          ↔ savedThemeOr s = lit "light") as Hlight.
  { unfold themeClasses.
    rewrite elem_of_union, elem_of_difference, elem_of_union,
      !elem_of_singleton, <- theme_class_inj.
    split; [intros [?|[_ []]]; [done|by left]|by left]. }
  split; [done|]. split; [apply elem_of_union; left; by apply elem_of_singleton|].
  split; [done|]. split.
  { intros Hnone. apply Hlight. unfold savedThemeOr. by rewrite Hnone. }
  split; [|done].
  destruct (decide (savedThemeOr s = lit "light")) as [Hl|Hl].
  - rewrite bool_decide_eq_true_2 by by apply Hlight.
    by apply toggleTextFor_dark.
  - rewrite bool_decide_eq_false_2 by by rewrite Hlight.
    unfold toggleTextFor. by rewrite decide_False.
Qed.

Lemma initializeThemeToggle_agrees_witness :
  lit "dark-theme"
  ∈ bodyClasses
      (ThemeState ({[ lit "dark-theme" ]} ∪ ({[ lit "dark-theme" ]} ∖ themeClasses))
         lightLabel (Storage true false false (Some (lit "dark")) None)).
Proof.
  refine (proj1 (proj2 (initializeThemeToggle_agrees true
            {[ lit "dark-theme" ]}
            (Storage true false false (Some (lit "dark")) None) _ _))).
  reflexivity.
Defined.

Lemma returns_theme (l : loading) :
  returns l ThemeToggle
  = validToken (savedThemeOr (storageNow l) ++ lit "-theme")
    && has l "themeToggle".
Proof.
  unfold returns, initializeThemeToggle. cbv zeta.
  destruct (validToken _); [|done].
  by destruct (has l "themeToggle").
Qed.

(** Which parts of the page come to life at [DOMContentLoaded]: an
    initializer that throws ends the listener, so the counter, the FAQ and
    the tabs need the theme toggle to have started, and everything after
    the counter, form validation included, needs all six elements of the
    counter, on top of its own element. *)
Theorem features_started (l : loading) :
  let themeStarts :=
    validToken (savedThemeOr (storageNow l) ++ lit "-theme") = true
    ∧ has l "themeToggle" = true in
  let counterStarts := forallb (has l) counterIds = true in
  (ThemeToggle ∈ onDOMContentLoaded l ↔ themeStarts)
  ∧ (∀ f, f ∈ [Counter; Faq; Tabs] →
          f ∈ onDOMContentLoaded l ↔ themeStarts ∧ counterStarts)
  ∧ (Dropdown ∈ onDOMContentLoaded l
     ↔ themeStarts ∧ counterStarts
       ∧ has l "dropdownToggle" = true ∧ has l "dropdownMenu" = true)
  ∧ (FormValidation ∈ onDOMContentLoaded l
     ↔ themeStarts ∧ counterStarts ∧ has l "contactForm" = true).
Proof.
  cbv zeta. unfold onDOMContentLoaded.
  assert (∀ f, f ∈ started l [ThemeToggle; Counter; Faq; Tabs; Dropdown;
                              FormValidation]
               ↔ (validToken (savedThemeOr (storageNow l) ++ lit "-theme")
                  = true ∧ has l "themeToggle" = true)
                 ∧ (f = ThemeToggle ∨ forallb (has l) counterIds = true))
    as Hstarted.
  { intros f. cbn [started]. rewrite returns_theme. cbn [returns].
    destruct (validToken _), (has l "themeToggle"),
      (forallb (has l) counterIds); cbn [andb];
      rewrite ?elem_of_cons, ?elem_of_nil;
      destruct f; intuition congruence. }
  split; [|split; [|split]].
  - rewrite list_elem_of_filter, Hstarted. cbn [attaches]. intuition.
  - intros f Hf. rewrite list_elem_of_filter, Hstarted.
    rewrite !elem_of_cons, elem_of_nil in Hf.
    destruct Hf as [->|[->|[->|[]]]]; cbn [attaches]; intuition congruence.
  - rewrite list_elem_of_filter, Hstarted. cbn [attaches].
    rewrite andb_true_iff. intuition congruence.
  - rewrite list_elem_of_filter, Hstarted. cbn [attaches].
    intuition congruence.
Qed.

End StartupFacts.

(** ** The counter *)

Module CounterFacts.
Import JS Counter.

Lemma updateDisplay_shown (z : Z) (n : nat) :
  (Z.abs z ≤ 100 + 5 * Z.of_nat n)%Z → shown (updateDisplay z) n.
Proof. by intros H. Qed.

Lemma counterStep_shown (c : counter) (e : counterEvent) (n : nat) :
  possibleEvent e → shown c n → shown (counterStep c e) (S n).
Proof.
  intros He (Ht & Hc & Hn).
  assert (shown c (S n)) as Hsame by (repeat split; [done..|lia]).
  destruct e as [| | | |draw|tag key]; cbn [counterStep possibleEvent] in *;
    try (apply updateDisplay_shown; lia).
  repeat case_match; try done; apply updateDisplay_shown; lia.
Qed.

Lemma foldl_shown (es : list counterEvent) (c : counter) (n : nat) :
  Forall possibleEvent es → shown c n →
  shown (foldl counterStep c es) (n + length es).
Proof.
  revert c n. induction es as [|e es IH]; intros c n Hes Hc.
  - cbn. by rewrite Nat.add_0_r.
  - apply Forall_cons in Hes as [He Hes]. cbn [foldl length].
    rewrite <- Nat.add_succ_comm. apply IH; [done|].
    by apply counterStep_shown.
Qed.

(** Whatever is clicked and typed, the display shows the count in decimal
    and in the colour of its sign, and the count stays within 100 plus
    five times the number of events, far inside the range where the
    Number arithmetic is exact; a key pressed in an input or a text area
    never changes the counter. *)
Theorem counter_display_follows (es : list counterEvent) :
  Forall possibleEvent es →
  textContent (runCounter es) = decimal (count (runCounter es))
  ∧ color (runCounter es) = colorFor (count (runCounter es))
  ∧ (Z.abs (count (runCounter es)) ≤ 100 + 5 * Z.of_nat (length es))%Z
  ∧ ∀ key, runCounter (es ++ [KeyDown (lit "input") key]) = runCounter es
           ∧ runCounter (es ++ [KeyDown (lit "textarea") key]) = runCounter es.
Proof.
  intros Hes.
  destruct (foldl_shown es initialCounter 0 Hes) as (Ht & Hc & Hn).
  { apply updateDisplay_shown. lia. }
  split; [done|]. split; [done|]. split; [done|].
  intros key. unfold runCounter. rewrite !foldl_app. cbn [foldl counterStep].
  by rewrite !bool_decide_eq_true_2 by done.
Qed.

Lemma counter_display_follows_witness :
  textContent (runCounter [ClickIncrement5; ClickRandom 30; ClickDecrement])
  = decimal (count (runCounter [ClickIncrement5; ClickRandom 30;
                                ClickDecrement])).
Proof.
  refine (proj1 (counter_display_follows
                   [ClickIncrement5; ClickRandom 30; ClickDecrement] _)).
  repeat constructor; cbn; lia.
Defined.

End CounterFacts.

(** ** Debouncing *)

Module DebounceFacts.
Import Debounce.

Lemma invocations_burst {A} (wait t : nat) (a : A) (rest : list (nat * A))
    (until : nat) :
  burst wait t rest.*1 →
  invocations wait (Some (t + wait, a)) rest until
  = if ((default (t, a) (last rest)).1 + wait <=? until)%nat
    then [(default (t, a) (last rest)).2] else [].
Proof.
  revert t a. induction rest as [|[t1 a1] rest IH]; intros t a Hb.
  - cbn. by destruct (t + wait <=? until)%nat.
  - cbn in Hb. destruct Hb as (Hle & Hlt & Hb).
    cbn [invocations elapse].
    assert ((t + wait <=? t1)%nat = false) as -> by (apply Nat.leb_gt; lia).
    cbn [app]. unfold call. rewrite (IH t1 a1 Hb), last_cons.
    by destruct (last rest).
Qed.

(** A burst of calls of a debounced function, each less than [wait] after
    the one before, runs the function once, with the arguments of the
    last call, [wait] after that call, and not at all before. *)
Theorem debounce_burst_runs_last {A} (wait t : nat) (a : A)
    (rest : list (nat * A)) (until : nat) :
  burst wait t rest.*1 →
  invocations wait None ((t, a) :: rest) until
  = if ((default (t, a) (last rest)).1 + wait <=? until)%nat
    then [(default (t, a) (last rest)).2] else [].
Proof.
  intros Hb. cbn [invocations elapse app]. unfold call.
  by apply invocations_burst.
Qed.

Lemma debounce_burst_runs_last_witness :
  invocations 300 None [(0, 1); (100, 2); (350, 3)] 650 = [3].
Proof.
  refine (debounce_burst_runs_last 300 0 1 [(100, 2); (350, 3)] 650 _).
  cbn. lia.
Defined.

End DebounceFacts.

(** ** The dropdown menu *)

Module DropdownFacts.
Import Dom Dropdown.

Lemma elapse_timers (now : nat) (m : menu) (t : nat) :
  Forall (λ due, due ≤ t) (hideTimers m) →
  Forall (λ due, due ≤ t) (hideTimers (elapse now m)).
Proof.
  intros H. cbn [elapse hideTimers]. rewrite Forall_forall in H |- *.
  intros due [_ Hin]%list_elem_of_filter. by apply H.
Qed.

Lemma clickAt_closing (m : menu) (t0 t : nat) (c : click) :
  Forall (λ due, due ≤ t0 + 200) (hideTimers m) → t0 ≤ t →
  closing (clickAt m (t, c)) t.
Proof.
  intros Hm Ht.
  assert (Forall (λ due, due ≤ t + 200) (hideTimers (elapse t m))) as He.
  { apply elapse_timers. eapply Forall_impl; [exact Hm|]. cbn. lia. }
  assert (closing (closeDropdown t (elapse t m)) t) as Hclose.
  { split; cbn [closeDropdown hideTimers arrowTurned].
    - apply Forall_app. split; [done|]. by apply Forall_singleton.
    - intros _ Hnil. by apply app_eq_nil in Hnil as [_ ?]. }
  unfold clickAt. cbv zeta. cbn [fst snd].
  destruct c; [|done..].
  destruct (isBlock _); [done|]. by split.
Qed.

Lemma foldl_closing (clicks : list (nat * click)) (m : menu) (t : nat) :
  closing m t → inOrder t clicks →
  closing (foldl clickAt m clicks) (lastTime t clicks).
Proof.
  revert m t. induction clicks as [|[t1 c1] clicks IH]; intros m t Hm Ho;
    [done|].
  cbn in Ho. destruct Ho as [Hle Ho]. cbn [foldl].
  replace (lastTime t ((t1, c1) :: clicks)) with (lastTime t1 clicks).
  - apply IH; [|done]. destruct Hm as [Hm _]. by apply (clickAt_closing m t).
  - unfold lastTime. rewrite last_cons. by destruct (last clicks).
Qed.

Lemma elapse_closing (m : menu) (t until : nat) :
  closing m t → t + 200 ≤ until →
  hideTimers (elapse until m) = []
  ∧ (arrowTurned (elapse until m) = false →
     menuDisplay (elapse until m) = DisplayNone).
Proof.
  intros [Hall Harrow] Hu. cbn [elapse hideTimers arrowTurned menuDisplay].
  split.
  - clear Harrow.
    induction Hall as [|due timers Hdue _ IH]; [done|].
    rewrite filter_cons_False by lia. exact IH.
  - intros Ha. specialize (Harrow Ha).
    destruct (hideTimers m) as [|due timers]; [done|].
    apply Forall_cons in Hall as [Hdue _]. cbn [existsb].
    assert ((due <=? until)%nat = true) as -> by (apply Nat.leb_le; lia).
    done.
Qed.

(** Once the clicks have been over for 200 ms no timer is waiting, and a
    menu whose arrow is turned back is not displayed: every way of
    closing the menu hides it. *)
Theorem dropdown_settles (m : menu) (t : nat) (c : click)
    (clicks : list (nat * click)) (until : nat) :
  hideTimers m = [] →
  inOrder t clicks →
  lastTime t clicks + 200 ≤ until →
  hideTimers (menuAt m ((t, c) :: clicks) until) = []
  ∧ (arrowTurned (menuAt m ((t, c) :: clicks) until) = false →
     menuDisplay (menuAt m ((t, c) :: clicks) until) = DisplayNone)
  ∧ (menuDisplay (menuAt m ((t, c) :: clicks) until) = DisplayBlock →
     arrowTurned (menuAt m ((t, c) :: clicks) until) = true).
Proof.
  intros Hm Ho Hu. unfold menuAt. cbn [foldl].
  assert (closing (foldl clickAt (clickAt m (t, c)) clicks)
            (lastTime t clicks)) as Hc.
  { apply foldl_closing; [|done].
    apply (clickAt_closing m t); [|done]. rewrite Hm. constructor. }
  destruct (elapse_closing _ _ until Hc Hu) as [Hnil Hhid].
  split; [done|]. split; [done|].
  intros Hblock.
  destruct (arrowTurned (elapse until _)); [done|].
  rewrite Hhid in Hblock; done.
Qed.

Lemma dropdown_settles_witness :
  hideTimers
    (menuAt (Menu DisplayUnset false []) [(0, OnToggle); (50, Outside)] 250)
  = [].
Proof.
  refine (proj1 (dropdown_settles (Menu DisplayUnset false []) 0 OnToggle
                   [(50, Outside)] 250 _ _ _)).
  - reflexivity.
  - cbn. lia.
  - cbn. lia.
Defined.

Lemma elapse_not_block (now : nat) (m : menu) :
  isBlock (menuDisplay m) = false →
  isBlock (menuDisplay (elapse now m)) = false.
Proof.
  intros H. cbn [elapse menuDisplay]. by destruct (existsb _ _).
Qed.

Lemma elapse_due (now due : nat) (m : menu) :
  due ∈ hideTimers m → due ≤ now → menuDisplay (elapse now m) = DisplayNone.
Proof.
  intros Hin Hle. cbn [elapse menuDisplay].
  assert (existsb (λ due, due <=? now)%nat (hideTimers m) = true) as ->; [|done].
  apply existsb_exists. exists due. split; [by apply list_elem_of_In|].
  by apply Nat.leb_le.
Qed.

Lemma elapse_waiting (now due : nat) (m : menu) :
  due ∈ hideTimers m → now < due → due ∈ hideTimers (elapse now m).
Proof.
  intros Hin Hlt. cbn [elapse hideTimers]. by apply list_elem_of_filter.
Qed.

(** The timer of a close is never cancelled: when the menu is not
    displayed, a click outside it followed within 200 ms by a click on the
    toggle opens the menu, and the timer of the first click then hides it
    again, its arrow still turned as for an open menu. *)
Theorem dropdown_reopened_is_hidden (m : menu) (t0 t1 : nat) :
  isBlock (menuDisplay m) = false →
  t0 ≤ t1 < t0 + 200 →
  menuDisplay (menuAt m [(t0, Outside); (t1, OnToggle)] t1) = DisplayBlock
  ∧ ∀ until, t0 + 200 ≤ until →
      menuDisplay (menuAt m [(t0, Outside); (t1, OnToggle)] until)
      = DisplayNone
      ∧ arrowTurned (menuAt m [(t0, Outside); (t1, OnToggle)] until) = true.
Proof.
  intros Hm [Hle Hlt]. unfold menuAt. cbn [foldl].
  set (m0 := clickAt m (t0, Outside)).
  assert (isBlock (menuDisplay (elapse t1 m0)) = false) as Hshut.
  { apply elapse_not_block. unfold m0, clickAt. cbn.
    destruct (existsb _ _); [done|exact Hm]. }
  assert (t0 + 200 ∈ hideTimers (elapse t1 m0)) as Hwait.
  { apply elapse_waiting; [|done]. unfold m0, clickAt. cbn.
    apply elem_of_app. right. by apply list_elem_of_singleton. }
  assert (clickAt m0 (t1, OnToggle) = openDropdown (elapse t1 m0)) as ->.
  { unfold clickAt. cbv zeta. cbn [fst snd]. by rewrite Hshut. }
  split.
  - cbn [elapse openDropdown menuDisplay hideTimers].
    assert (existsb (λ due, due <=? t1)%nat
              (filter (λ due, t1 < due) (hideTimers m0)) = false) as ->;
      [|done].
    apply not_true_is_false. intros (due & Hin & Hdue)%existsb_exists.
    apply list_elem_of_In, list_elem_of_filter in Hin as [Hin _].
    apply Nat.leb_le in Hdue. lia.
  - intros u Hu. split; [|done].
    by apply (elapse_due u (t0 + 200)).
Qed.

Lemma dropdown_reopened_is_hidden_witness :
  menuDisplay
    (menuAt (Menu DisplayUnset false []) [(0, Outside); (100, OnToggle)] 100)
  = DisplayBlock.
Proof.
  refine (proj1 (dropdown_reopened_is_hidden (Menu DisplayUnset false [])
                   0 100 _ _)).
  - reflexivity.
  - lia.
Defined.

End DropdownFacts.
